(** * scripts/process_screenshots.py: the response pipeline

    A shallow embedding of the normalise / parse / validate / retry
    pipeline of [scripts/process_screenshots.py]
    ([normalize_raw_text], [parse_csv_row], [validate_csv_row],
    [request_csv_row]) together with the Python built-ins it calls
    ([str.strip], [str.splitlines], [str.join], [csv.reader] over an
    [io.StringIO]), and the properties of the pipeline.

    A Python [str] is a sequence of Unicode code points: here a list of
    [N].  [str.lower] is the one built-in whose table is too large to
    write down; it is a parameter of the development, and the results
    that look inside it assume only that it is the usual ASCII lower-casing
    on ASCII text. *)

From Stdlib Require Import ZArith NArith List Bool Lia.
From Stdlib Require Import Numbers.DecimalString.
From stdpp Require Import base gmap list strings.

Local Open Scope N_scope.

(** ** Python strings *)

Abbreviation Str := (list N).

(** A literal of the source, as code points. *)
Definition str (s : string) : Str :=
  map Ascii.N_of_ascii (String.list_ascii_of_string s).
Arguments str s%_string.

Definition TAB : N := 9.
Definition LF : N := 10.
Definition CR : N := 13.
Definition SPACE : N := 32.
Definition QUOTE : N := 34.
Definition COMMA : N := 44.

(** [Py_UNICODE_ISSPACE]: the characters [str.strip()] removes. *)
Definition isspace (c : N) : bool :=
  ((9 <=? c) && (c <=? 13)) || ((28 <=? c) && (c <=? 32))
  || (c =? 133) || (c =? 160) || (c =? 5760)
  || ((8192 <=? c) && (c <=? 8202))
  || (c =? 8232) || (c =? 8233) || (c =? 8239) || (c =? 8287) || (c =? 12288).

(** [Py_UNICODE_ISLINEBREAK]: the line boundaries of [str.splitlines()]. *)
Definition islinebreak (c : N) : bool :=
  ((10 <=? c) && (c <=? 13)) || ((28 <=? c) && (c <=? 30))
  || (c =? 133) || (c =? 8232) || (c =? 8233).

Fixpoint drop_while (p : N -> bool) (s : Str) : Str :=
  match s with
  | [] => []
  | c :: rest => if p c then drop_while p rest else s
  end.

Definition lstrip_with (p : N -> bool) (s : Str) : Str := drop_while p s.
Definition rstrip_with (p : N -> bool) (s : Str) : Str :=
  rev (drop_while p (rev s)).

(** [s.strip()] *)
Definition strip (s : Str) : Str := rstrip_with isspace (lstrip_with isspace s).

(** [c in s] for a one-character [c]. *)
Definition char_in (c : N) (s : Str) : bool := existsb (N.eqb c) s.

(** [s.rstrip(chars)] *)
Definition rstrip_chars (chars : Str) (s : Str) : Str :=
  rstrip_with (fun c => char_in c chars) s.

(** [s.splitlines()]: [cur] is the line being read.  A carriage return
    followed by a line feed is one boundary; a boundary at the very end
    opens no further line. *)
Fixpoint splitlines_from (cur : Str) (s : Str) : list Str :=
  match s with
  | [] => match cur with [] => [] | _ => [cur] end
  | c :: rest =>
      if islinebreak c then
        match rest with
        | [] => [cur]
        | c' :: rest' =>
            if (c =? CR) && (c' =? LF)
            then cur :: splitlines_from [] rest'
            else cur :: splitlines_from [] rest
        end
      else splitlines_from (cur ++ [c]) rest
  end.

Definition splitlines (s : Str) : list Str := splitlines_from [] s.

(** [sep.join(parts)] *)
Fixpoint join (sep : Str) (parts : list Str) : Str :=
  match parts with
  | [] => []
  | [p] => p
  | p :: rest => p ++ sep ++ join sep rest
  end.

(** [s.startswith(prefix)] *)
Fixpoint startswith (s prefix : Str) {struct prefix} : bool :=
  match prefix, s with
  | [], _ => true
  | _ :: _, [] => false
  | p :: prefix', c :: s' => (c =? p) && startswith s' prefix'
  end.

(** Truth value of a [str]: non-empty. *)
Definition nonempty {A} (l : list A) : bool :=
  match l with [] => false | _ => true end.

(** [str(n)] for an [int]. *)
Definition str_of_int (z : Z) : Str := str (NilEmpty.string_of_int (Z.to_int z)).

(** [seq[-n:]]: the last [n] elements, the whole sequence when it is
    shorter, and (since [-0] is [0]) the whole sequence when [n] is zero. *)
Definition slice_last {A} (n : nat) (l : list A) : list A :=
  match n with
  | O => l
  | _ => drop (length l - n) l
  end.

(** ** Exceptions and results *)

(** The exceptions that can cross the pipeline: the two it can raise
    itself, and whatever the inference client raises ([cls] is its class
    name). *)
Inductive PyExc : Type :=
  | IndexError (msg : Str)
  | ValueError (msg : Str)
  | OtherException (cls msg : Str).

Inductive Outcome (A : Type) : Type :=
  | Return (a : A)
  | Raise (e : PyExc).
Arguments Return {A} a.
Arguments Raise {A} e.

(** A [Dict[str, str]]. *)
Abbreviation Row := (gmap (list N) (list N)).

(** [d.get(key, default)] *)
Definition dict_get (d : Row) (key dflt : Str) : Str := default dflt (d !! key).

(** ** [io.StringIO] and [csv.reader] *)

(** Iterating an [io.StringIO]: the text cut after every line feed (the
    default [newline] of [StringIO] translates nothing). *)
Fixpoint readlines_from (cur : Str) (s : Str) : list Str :=
  match s with
  | [] => match cur with [] => [] | _ => [cur] end
  | c :: rest =>
      if c =? LF then (cur ++ [c]) :: readlines_from [] rest
      else readlines_from (cur ++ [c]) rest
  end.

Definition StringIO (s : Str) : list Str := readlines_from [] s.

(** The states of the reader of [_csv.c] that are reachable without an
    escape character (the [excel] dialect has none). *)
Inductive ParserState : Type :=
  | START_RECORD | START_FIELD | IN_FIELD
  | IN_QUOTED_FIELD | QUOTE_IN_QUOTED_FIELD | EAT_CRNL.

Inductive csv_Error : Type :=
  | FieldLimitExceeded
  | LineContainsNUL
  | NewlineInUnquotedField.

(** [str(exc)] for a [csv.Error]. *)
Definition csv_Error_str (e : csv_Error) : Str :=
  match e with
  | FieldLimitExceeded => str "field larger than field limit (131072)"
  | LineContainsNUL => str "line contains NUL"
  | NewlineInUnquotedField =>
      str "new-line character seen in unquoted field - do you need to open the file with newline=''?"
  end.

Record ReaderObj : Type := mkReader {
  state : ParserState;
  fields : list Str;
  field : Str
}.

(** [csv.field_size_limit()]: the module default, which the script keeps. *)
Definition field_limit : N := 131072.

Definition parse_reset : ReaderObj := mkReader START_RECORD [] [].

Definition set_state (st : ParserState) (self : ReaderObj) : ReaderObj :=
  mkReader st (fields self) (field self).

Definition parse_save_field (self : ReaderObj) : ReaderObj :=
  mkReader (state self) (fields self ++ [field self]) [].

Definition parse_add_char (self : ReaderObj) (c : N) : csv_Error + ReaderObj :=
  if field_limit <=? N.of_nat (length (field self)) then inl FieldLimitExceeded
  else inr (mkReader (state self) (fields self) (field self ++ [c])).

Definition is_crnl (c : N) : bool := (c =? LF) || (c =? CR).

(** The [START_FIELD] case of [parse_process_char]; [None] is the
    end-of-line marker [EOL] the reader feeds after each line. *)
Definition start_field (delimiter : N) (self : ReaderObj) (c : option N)
  : csv_Error + ReaderObj :=
  match c with
  | None => inr (set_state START_RECORD (parse_save_field self))
  | Some ch =>
      if is_crnl ch then inr (set_state EAT_CRNL (parse_save_field self))
      else if ch =? QUOTE then inr (set_state IN_QUOTED_FIELD self)
      else if ch =? delimiter then inr (parse_save_field self)
      else match parse_add_char self ch with
           | inl e => inl e
           | inr self' => inr (set_state IN_FIELD self')
           end
  end.

(** [parse_process_char] for the dialect the script uses: [excel] with
    the delimiter replaced (double-quote as quote character, doubled, minimal
    quoting, not strict, initial spaces kept). *)
Definition parse_process_char (delimiter : N) (self : ReaderObj) (c : option N)
  : csv_Error + ReaderObj :=
  match state self with
  | START_RECORD =>
      match c with
      | None => inr self
      | Some ch =>
          if is_crnl ch then inr (set_state EAT_CRNL self)
          else start_field delimiter (set_state START_FIELD self) c
      end
  | START_FIELD => start_field delimiter self c
  | IN_FIELD =>
      match c with
      | None => inr (set_state START_RECORD (parse_save_field self))
      | Some ch =>
          if is_crnl ch then inr (set_state EAT_CRNL (parse_save_field self))
          else if ch =? delimiter then inr (set_state START_FIELD (parse_save_field self))
          else parse_add_char self ch
      end
  | IN_QUOTED_FIELD =>
      match c with
      | None => inr self
      | Some ch =>
          if ch =? QUOTE then inr (set_state QUOTE_IN_QUOTED_FIELD self)
          else parse_add_char self ch
      end
  | QUOTE_IN_QUOTED_FIELD =>
      match c with
      | None => inr (set_state START_RECORD (parse_save_field self))
      | Some ch =>
          if ch =? QUOTE then
            match parse_add_char self ch with
            | inl e => inl e
            | inr self' => inr (set_state IN_QUOTED_FIELD self')
            end
          else if ch =? delimiter then inr (set_state START_FIELD (parse_save_field self))
          else if is_crnl ch then inr (set_state EAT_CRNL (parse_save_field self))
          else match parse_add_char self ch with
               | inl e => inl e
               | inr self' => inr (set_state IN_FIELD self')
               end
      end
  | EAT_CRNL =>
      match c with
      | None => inr (set_state START_RECORD self)
      | Some ch => if is_crnl ch then inr self else inl NewlineInUnquotedField
      end
  end.

Definition in_quoted_field (self : ReaderObj) : bool :=
  match state self with IN_QUOTED_FIELD => true | _ => false end.

(** ** The documents of the store *)

(** An entry of the OCR collection, as far as the script reads it: its
    [_id], and the [userId] and [screenshot] fields where present. *)
Record Entry (ObjectId : Type) : Type := mkEntry {
  entry__id : ObjectId;
  entry_userId : option Str;
  entry_screenshot : option Str
}.
Arguments mkEntry {ObjectId}.
Arguments entry__id {ObjectId}.
Arguments entry_userId {ObjectId}.
Arguments entry_screenshot {ObjectId}.

(** A document of the exports collection. *)
Record ExportDoc (Time : Type) : Type := mkExportDoc {
  entryId : Str;
  userId : Str;
  customerName : Str;
  customerAddress : Str;
  rawResponse : Str;
  processedAt : Time;
  updatedAt : Time
}.
Arguments mkExportDoc {Time}.
Arguments entryId {Time}.
Arguments userId {Time}.
Arguments customerName {Time}.
Arguments customerAddress {Time}.
Arguments rawResponse {Time}.
Arguments processedAt {Time}.
Arguments updatedAt {Time}.

(** A write the script asks of the store, with how it went. *)
Inductive StoreOp (ObjectId Time : Type) : Type :=
  | Update_one (id : Str) (doc : ExportDoc Time) (created : Time)
               (result : Outcome unit)
  | Delete_one (id : ObjectId) (result : Outcome nat).
Arguments Update_one {ObjectId Time}.
Arguments Delete_one {ObjectId Time}.

(** The two filters the script queries the OCR collection with: [{}]
    and [{"screenshot": {"$exists": True, "$ne": None}}]. *)
Inductive Filter : Type :=
  | All_documents
  | With_screenshot.

(** ** Finding the database and the collections *)

(** [x in xs] for a list of strings. *)
Definition in_list (x : Str) (xs : list Str) : bool :=
  existsb (fun y => bool_decide (y = x)) xs.

Definition possible_collections : list Str :=
  [str "ocrtexts"; str "ocrtext"; str "ocr_texts"; str "ocr_text"].

Definition system_databases : list Str := [str "admin"; str "local"; str "config"].

Definition EXPORT_COLLECTION_NAME : Str := str "ocrexports".

(** What the server holds while [prepare_collections] runs: the
    databases in the order [client.list_database_names()] gives them, each
    with what its [list_collection_names()] gives. *)
Abbreviation Client := (list (Str * list Str)).

Definition list_database_names (client : Client) : list Str := map fst client.

(** [client[db_name].list_collection_names()]: nothing for a database
    the server does not hold. *)
Definition list_collection_names (client : Client) (db_name : Str) : list Str :=
  match List.find (fun db => bool_decide (fst db = db_name)) client with
  | Some db => snd db
  | None => []
  end.

(** [for coll_name in possible_collections: if coll_name in collections:
    ...; break] *)
Definition first_possible (collections : list Str) : option Str :=
  List.find (fun coll_name => in_list coll_name collections) possible_collections.

(** The search through all databases, the system ones passed over. *)
Fixpoint search_databases (client : Client) (available_dbs : list Str)
  : option (Str * Str) :=
  match available_dbs with
  | [] => None
  | db_name :: rest =>
      if in_list db_name system_databases then search_databases client rest
      else
        match first_possible (list_collection_names client db_name) with
        | Some coll_name => Some (db_name, coll_name)
        | None => search_databases client rest
        end
  end.

(** [prepare_collections], with the handles it returns given by their
    names: the database, the OCR collection and the exports collection. *)
Definition prepare_collections (MONGODB_DB : Str) (client : Client)
  : Outcome (Str * Str * Str) :=
  let available_dbs := list_database_names client in
  let found :=
    if in_list MONGODB_DB available_dbs then Some (MONGODB_DB, None)
    else
      match search_databases client available_dbs with
      | Some (db_name, coll_name) => Some (db_name, Some coll_name)
      | None => None
      end in
  match found with
  | None =>
      Raise (OtherException (str "RuntimeError")
                            (str "No database with OCR collection found"))
  | Some (found_db_name, Some collection_name) =>
      Return (found_db_name, collection_name, EXPORT_COLLECTION_NAME)
  | Some (found_db_name, None) =>
      match first_possible (list_collection_names client found_db_name) with
      | Some collection_name =>
          Return (found_db_name, collection_name, EXPORT_COLLECTION_NAME)
      | None => Return (found_db_name, str "ocrtexts", EXPORT_COLLECTION_NAME)
      end
  end.

(** A collection name is the choice among those of a database when it
    is one of the four possible names, the database has it, and it has
    none of the names preferred to it. *)
Definition chosen_in (collections : list Str) (coll_name : Str) : Prop :=
  exists before after,
    possible_collections = before ++ coll_name :: after
    /\ In coll_name collections
    /\ Forall (fun c => ~ In c collections) before.

(** A database the search passes over: a system database, or one with
    none of the four collections. *)
Definition passed_over (client : Client) (db_name : Str) : Prop :=
  In db_name system_databases
  \/ forall c, In c possible_collections ->
               ~ In c (list_collection_names client db_name).

(** ** More of Python's strings *)

(** [s.split(sep)] for a one-character [sep]. *)
Fixpoint split_from (sep : N) (cur : Str) (s : Str) : list Str :=
  match s with
  | [] => [cur]
  | c :: rest =>
      if c =? sep then cur :: split_from sep [] rest
      else split_from sep (cur ++ [c]) rest
  end.

Definition split (sep : N) (s : Str) : list Str := split_from sep [] s.

(** [s.replace(c, "")] for a one-character [c]. *)
Definition remove_char (c : N) (s : Str) : Str :=
  List.filter (fun x => negb (x =? c)) s.

(** ** The name of the database *)

Definition PLUS : N := 43.
Definition SLASH : N := 47.
Definition QUESTION : N := 63.

(** [sub in s] for strings. *)
Fixpoint contains (sub s : Str) : bool :=
  match s with
  | [] => startswith [] sub
  | _ :: rest => startswith s sub || contains sub rest
  end.

(** [s.split(sep)] for a separator of several characters: [skip] counts
    the characters of a separator just found that are still to pass. *)
Fixpoint split_str_from (sep : Str) (skip : nat) (cur : Str) (s : Str) : list Str :=
  match s with
  | [] => [cur]
  | c :: rest =>
      match skip with
      | S k => split_str_from sep k cur rest
      | O =>
          if startswith s sep
          then cur :: split_str_from sep (length sep - 1) [] rest
          else split_str_from sep 0 (cur ++ [c]) rest
      end
  end.

Definition split_str (sep s : Str) : list Str := split_str_from sep 0 [] s.

Definition SRV_SCHEME : Str := str "mongodb+srv://".

(** The [try] block that reads the database name off [MONGODB_URI]:
    [None] when an exception leaves it, else the value of [MONGODB_DB]
    after it ([None] for Python's [None]).  [urlparse_path] is
    [urlparse(uri).path], [None] where [urlparse] raises. *)
Definition database_of_uri (urlparse_path : Str -> option Str) (MONGODB_URI : Str)
  : option (option Str) :=
  if contains SRV_SCHEME MONGODB_URI then
    match split_str SRV_SCHEME MONGODB_URI !! 1%nat with
    | None => None
    | Some parts =>
        if char_in SLASH parts then
          match split SLASH parts !! 1%nat with
          | None => None
          | Some db_part =>
              if negb (startswith db_part [QUESTION])
              then Some (Some (if char_in QUESTION db_part
                               then hd [] (split QUESTION db_part)
                               else db_part))
              else Some None
          end
        else Some None
    end
  else
    match urlparse_path MONGODB_URI with
    | None => None
    | Some path =>
        if nonempty path && (1 <? length path)%nat
        then Some (Some (hd [] (split QUESTION (tl path))))
        else Some None
    end.

(** What the block that settles [MONGODB_DB] gives it, from the
    environment variable of that name ([None] when unset) and a
    [MONGODB_URI] that passed the check before it. *)
Definition MONGODB_DB_of (urlparse_path : Str -> option Str)
    (env_MONGODB_DB : option Str) (MONGODB_URI : Str) : Str :=
  let from_env := default [] env_MONGODB_DB in
  if nonempty from_env then from_env
  else
    match database_of_uri urlparse_path MONGODB_URI with
    | Some (Some db) => if nonempty db then db else str "breather"
    | Some None => str "breather"
    | None => str "breather"
    end.

(** The script as far as [MONGODB_DB] is settled: it leaves through
    [sys.exit(1)] when [MONGODB_URI] is unset or empty, before
    [MONGODB_DB] is assigned; else [MONGODB_DB] gets its value. *)
Definition SystemExit_1 : PyExc := OtherException (str "SystemExit") (str "1").

Definition MONGODB_DB_at_start (urlparse_path : Str -> option Str)
    (env_MONGODB_URI env_MONGODB_DB : option Str) : Outcome Str :=
  match env_MONGODB_URI with
  | None => Raise SystemExit_1
  | Some MONGODB_URI =>
      if negb (nonempty MONGODB_URI) then Raise SystemExit_1
      else Return (MONGODB_DB_of urlparse_path env_MONGODB_DB MONGODB_URI)
  end.

(** The text before the first [c], all of it when there is none. *)
Fixpoint take_until (c : N) (s : Str) : Str :=
  match s with
  | [] => []
  | x :: rest => if x =? c then [] else x :: take_until c rest
  end.

(** ** Inference clients for the examples *)

(** One that never answers with a row, and one
    that loses its connection on the second call. *)
Definition unreadable : Row := {[ str "answer" := str "I cannot read this image" ]}.

Definition stub_unreadable (model : unit) (image : unit) (prompt : Str)
  : unit * Outcome Row :=
  (model, Return unreadable).

Definition stub_drops_second (model : nat) (image : unit) (prompt : Str)
  : nat * Outcome Row :=
  (S model,
   if (model =? 1)%nat
   then Raise (OtherException (str "ConnectionError") (str "connection refused"))
   else Return unreadable).

(** One that reads the screenshot, and one that does so on the second
    call only. *)
Definition answer_jane_doe : Row :=
  {[ str "answer" := str "Jane Doe" ++ [TAB] ++ str "5 Oak Ave" ]}.

Definition stub_reads (model : unit) (image : unit) (prompt : Str)
  : unit * Outcome Row :=
  (model, Return answer_jane_doe).

Definition stub_second_try (model : nat) (image : unit) (prompt : Str)
  : nat * Outcome Row :=
  (S model, if (model =? 0)%nat then Return unreadable else Return answer_jane_doe).

(** ** Decoders, a store and servers for the examples *)

(** Decoders that take any non-empty text for an image. *)
Definition any_bytes (s : Str) : option (list N) := Some s.

Definition any_image (image_data : list N) : option unit :=
  if nonempty image_data then Some tt else None.

(** Ids and times are numbers, the clock counts the calls of [utcnow],
    and the store keeps the documents of the OCR collection (newest
    first) and the ids it exported. *)
Definition str_of_nat (n : nat) : Str := str_of_int (Z.of_nat n).

Definition ticking (clock : nat) : nat * nat := (S clock, clock).

Definition MemoryStore : Type := list (Entry nat) * list Str.

Definition has_screenshot (entry : Entry nat) : bool :=
  match entry_screenshot entry with Some _ => true | None => false end.

Definition memory_count_documents (store : MemoryStore) (filter : Filter)
  : MemoryStore * Outcome nat :=
  (store,
   Return match filter with
          | All_documents => length (fst store)
          | With_screenshot => length (List.filter has_screenshot (fst store))
          end).

Definition memory_find_sorted (store : MemoryStore)
  : MemoryStore * Outcome (list (Entry nat)) :=
  (store, Return (List.filter has_screenshot (fst store))).

Definition memory_find_one (store : MemoryStore)
  : MemoryStore * Outcome (option (Entry nat)) :=
  (store, Return (hd_error (fst store))).

Definition memory_update_one (store : MemoryStore) (id : Str) (doc : ExportDoc nat)
    (created : nat) : MemoryStore * Outcome unit :=
  ((fst store, id :: snd store), Return tt).

Definition memory_delete_one (store : MemoryStore) (id : nat)
  : MemoryStore * Outcome nat :=
  ((List.filter (fun entry => negb (entry__id entry =? id)%nat) (fst store), snd store),
   Return (length (List.filter (fun entry => (entry__id entry =? id)%nat) (fst store)))).

(** A store that cannot be reached when the export is written. *)
Definition unreachable : PyExc :=
  OtherException (str "ServerSelectionTimeoutError") (str "connection refused").

Definition lost_update_one (store : MemoryStore) (id : Str) (doc : ExportDoc nat)
    (created : nat) : MemoryStore * Outcome unit :=
  (store, Raise unreachable).

Definition one_entry : list (Entry nat) :=
  [mkEntry 7%nat (Some (str "user1")) (Some (str "data:image/png;base64,aGVsbG8="))].

Definition three_unusable_entries : list (Entry nat) :=
  [mkEntry 1%nat None None;
   mkEntry 2%nat (Some (str "user1")) (Some []);
   mkEntry 3%nat None (Some (str "data:image/png;base64"))].

(** A server with the collection in its third database, and one
    without it. *)
Definition server_with_ocrtext : Client :=
  [(str "admin", [str "system.version"]);
   (str "test", [str "users"]);
   (str "breather", [str "users"; str "ocr_texts"; str "ocrtext"])].


Definition no_urlparse (uri : Str) : option Str := None.

Section Pipeline.

(** [str.lower]. *)
Variable lower : Str -> Str.

(** Whether the reader refuses a NUL character (line contains NUL):
    CPython does before 3.11 and does not from 3.11 on. *)
Variable csv_rejects_nul : bool.

(** The image handed to the client, and the client: [model.query] may
    keep state between calls, and either returns a response dictionary or
    raises. *)
Variable Image : Type.
Variable Model : Type.
Variable query : Model -> Image -> Str -> Model * Outcome Row.

(** The characters of one line, fed to the parser in turn. *)
Fixpoint process_line (delimiter : N) (self : ReaderObj) (line : Str)
  : csv_Error + ReaderObj :=
  match line with
  | [] => inr self
  | c :: rest =>
      if csv_rejects_nul && (c =? 0) then inl LineContainsNUL
      else match parse_process_char delimiter self (Some c) with
           | inl e => inl e
           | inr self' => process_line delimiter self' rest
           end
  end.

(** [list(csv.reader(lines, delimiter=delimiter))]: [Reader_iternext]
    called until the lines run out.  A record ends when the parser is
    back in [START_RECORD] after a line; when the lines run out inside a
    quoted field, or with characters pending, what was read is one last
    record. *)
Fixpoint reader_records (delimiter : N) (self : ReaderObj) (lines : list Str)
  : csv_Error + list (list Str) :=
  match lines with
  | [] =>
      if nonempty (field self) || in_quoted_field self
      then inr [fields (parse_save_field self)]
      else inr []
  | line :: rest =>
      match process_line delimiter self line with
      | inl e => inl e
      | inr self1 =>
          match parse_process_char delimiter self1 None with
          | inl e => inl e
          | inr self2 =>
              match state self2 with
              | START_RECORD =>
                  match reader_records delimiter parse_reset rest with
                  | inl e => inl e
                  | inr records => inr (fields self2 :: records)
                  end
              | _ => reader_records delimiter self2 rest
              end
          end
      end
  end.

Definition csv_reader (lines : list Str) (delimiter : N)
  : csv_Error + list (list Str) :=
  reader_records delimiter parse_reset lines.

(** ** The script *)

Definition CSV_HEADERS : list Str :=
  [str "Customer Name"; str "Customer Address"].

Definition CSV_PROMPT : Str :=
  strip ([LF] ++ str "Output one tab-separated row with these columns: "
         ++ join (str ", ") CSV_HEADERS ++ str "." ++ [LF]).

Definition normalize_raw_text (raw_text : Str) : Str :=
  let raw_text := strip raw_text in
  if negb (nonempty raw_text) then []
  else
    let lines :=
      map strip (List.filter (fun line => nonempty (strip line)) (splitlines raw_text)) in
    if negb (nonempty lines) then []
    else if existsb (char_in TAB) lines
    then join [TAB] (List.filter nonempty lines)
    else if (2 <=? length lines)%nat && negb (char_in COMMA (hd [] lines))
    then
      let name := hd [] lines in
      let address := join [SPACE] (tl lines) in
      name ++ [TAB] ++ address
    else
      let stripped_lines := map (rstrip_chars [COMMA]) lines in
      join [COMMA] stripped_lines.

(** One turn of the candidate loop of [parse_csv_row]. *)
Definition candidate_step (candidate : option (list Str)) (row : list Str)
  : option (list Str) :=
  let normalized := map strip row in
  if negb (nonempty normalized) then candidate
  else
    let lowered := map lower normalized in
    if bool_decide (lowered = map lower CSV_HEADERS) then candidate
    else if (length CSV_HEADERS <=? length normalized)%nat
    then Some (slice_last (length CSV_HEADERS) normalized)
    else candidate.

Definition select_candidate (rows : list (list Str)) : option (list Str) :=
  fold_left candidate_step rows None.

Definition enumerate {A} (l : list A) : list (nat * A) :=
  combine (seq 0 (length l)) l.

(** [for idx, header in ...: result[header] = candidate[idx].strip()] *)
Fixpoint fill_result (items : list (nat * Str)) (candidate : list Str) (result : Row)
  : Outcome Row :=
  match items with
  | [] => Return result
  | (idx, header) :: rest =>
      match candidate !! idx with
      | None => Raise (IndexError (str "list index out of range"))
      | Some col => fill_result rest candidate (<[header := strip col]> result)
      end
  end.

Definition expected_columns_msg (k j : nat) : Str :=
  str "expected " ++ str_of_int (Z.of_nat k) ++ str " columns, got "
  ++ str_of_int (Z.of_nat j).

Definition parse_csv_row (raw_text : Str) : Outcome (option Row * option Str) :=
  let normalized_text := normalize_raw_text raw_text in
  if negb (nonempty normalized_text) then Return (None, Some (str "empty response"))
  else
    let delimiter := if char_in TAB normalized_text then TAB else COMMA in
    match csv_reader (StringIO normalized_text) delimiter with
    | inl exc => Return (None, Some (str "parse error: " ++ csv_Error_str exc))
    | inr records =>
        let rows := List.filter nonempty records in
        if negb (nonempty rows) then Return (None, Some (str "no data rows"))
        else
          match select_candidate rows with
          | None => Return (None, Some (str "no row with expected column count"))
          | Some candidate =>
              if negb (length candidate =? length CSV_HEADERS)%nat
              then Return (None, Some (expected_columns_msg (length CSV_HEADERS)
                                                           (length candidate)))
              else
                match fill_result (enumerate CSV_HEADERS) candidate ∅ with
                | Raise e => Raise e
                | Return result => Return (Some result, None)
                end
          end
    end.

Definition placeholder_msg (header : Str) : Str :=
  header ++ str " still contains placeholder text".

Fixpoint validate_headers (headers : list Str) (row : Row) : option Str :=
  match headers with
  | [] => None
  | header :: rest =>
      let value := strip (dict_get row header []) in
      if nonempty value && startswith (lower value) (lower header)
      then Some (placeholder_msg header)
      else validate_headers rest row
  end.

Definition validate_csv_row (row : Row) : option Str :=
  validate_headers CSV_HEADERS row.

(** ** The retry loop *)

(** One call of [model.query]: the prompt sent and what came back. *)
Definition Call : Type := Str * Outcome Row.

Definition retry_prompt (last_error : option Str) : Str :=
  CSV_PROMPT ++ [LF; LF]
  ++ str "The previous response was invalid because "
  ++ (match last_error with
      | Some e => if nonempty e then e else str "it could not be parsed"
      | None => str "it could not be parsed"
      end)
  ++ str ". "
  ++ str "Respond again with only one line containing exactly "
  ++ str_of_int (Z.of_nat (length CSV_HEADERS))
  ++ str " tab-separated fields in the specified order.".

(** How the [for] loop of [request_csv_row] ends: by leaving the function
    (a [return], or an exception passing through), or by running out of
    attempts with [last_error] as it then stands. *)
Inductive LoopExit : Type :=
  | Left_function (o : Outcome (Row * Str))
  | Exhausted (last_error : option Str).

(** [for attempt in range(max_attempts)], with [remaining] turns to go.
    The result carries the client after the calls and the calls made, in
    order.  (The [print] of each raw answer goes to the console and is
    left out.) *)
Fixpoint attempts (image : Image) (remaining : nat) (attempt : Z)
    (last_error : option Str) (current_prompt : Str) (model : Model)
  : Model * list Call * LoopExit :=
  match remaining with
  | O => (model, [], Exhausted last_error)
  | S remaining' =>
      let current_prompt :=
        if (0 <? attempt)%Z then retry_prompt last_error else current_prompt in
      let '(model1, csv_query_result) := query model image current_prompt in
      let call := (current_prompt, csv_query_result) in
      match csv_query_result with
      | Raise e => (model1, [call], Left_function (Raise e))
      | Return response =>
          let raw_csv := strip (dict_get response (str "answer") []) in
          match parse_csv_row raw_csv with
          | Raise e => (model1, [call], Left_function (Raise e))
          | Return (parsed_row, parse_error) =>
              let retry last_error :=
                let '(model2, calls, exit) :=
                  attempts image remaining' (attempt + 1)%Z last_error
                           current_prompt model1 in
                (model2, call :: calls, exit) in
              let parse_failed :=
                retry (Some (match parse_error with
                             | Some e => if nonempty e then e
                                         else str "unknown parsing error"
                             | None => str "unknown parsing error"
                             end)) in
              match parsed_row with
              | Some row =>
                  if bool_decide (row = ∅) then parse_failed
                  else
                    match validate_csv_row row with
                    | Some validation_error =>
                        if nonempty validation_error
                        then retry (Some validation_error)
                        else (model1, [call], Left_function (Return (row, raw_csv)))
                    | None => (model1, [call], Left_function (Return (row, raw_csv)))
                    end
              | None => parse_failed
              end
          end
      end
  end.

(** [str(x)] of the [Optional[str]] in the final message. *)
Definition str_of_optional (o : option Str) : Str :=
  match o with Some s => s | None => str "None" end.

Definition exhausted_msg (max_attempts : Z) (last_error : option Str) : Str :=
  str "Failed to obtain valid CSV row after " ++ str_of_int max_attempts
  ++ str " attempts: " ++ str_of_optional last_error.

(** [range(n)] has [max(n, 0)] elements. *)
Definition request_csv_row (image : Image) (model : Model) (max_attempts : Z)
  : Model * list Call * Outcome (Row * Str) :=
  let '(model', calls, exit) :=
    attempts image (Z.to_nat max_attempts) 0%Z None CSV_PROMPT model in
  match exit with
  | Left_function o => (model', calls, o)
  | Exhausted last_error =>
      (model', calls, Raise (ValueError (exhausted_msg max_attempts last_error)))
  end.

(** ** The rest of the script: one screenshot, one pass over the entries *)

Section Script.

(** [str(e)]: the message an exception carries. *)
Definition exc_str (e : PyExc) : Str :=
  match e with
  | IndexError msg => msg
  | ValueError msg => msg
  | OtherException _ msg => msg
  end.

(** Whether a class derives from [Exception] (and is caught by
    [except Exception]); [KeyboardInterrupt], which the script expects in
    [main], does not. *)
Variable derives_from_Exception : Str -> bool.

Definition is_Exception (e : PyExc) : bool :=
  match e with
  | IndexError _ | ValueError _ => true
  | OtherException cls _ => derives_from_Exception cls
  end.

(** The [results] dictionary of [process_screenshot]: each key is there
    or not. *)
Record Results : Type := mkResults {
  results_csv_row : option Row;
  results_csv_raw : option Str;
  results_error : option Str
}.

Definition process_screenshot (image : Image) (model : Model)
  : Model * list Call * Outcome Results :=
  let '(model', calls, outcome) := request_csv_row image model 3 in
  match outcome with
  | Return (parsed_row, csv_answer) =>
      (model', calls, Return (mkResults (Some parsed_row) (Some csv_answer) None))
  | Raise e =>
      if is_Exception e
      then (model', calls, Return (mkResults None None (Some (exc_str e))))
      else (model', calls, Raise e)
  end.

(** [base64.b64decode] and [Image.open] over the decoded bytes; [None]
    where they raise. *)
Variable b64decode : Str -> option (list N).
Variable Image_open : list N -> option Image.

(** Every exception inside is caught and turned into [None]: the
    [IndexError] of [split(",")[1]] on a prefix without comma, and what the
    two decoders raise. *)
Definition base64_to_image (base64_string : Str) : option Image :=
  let after_prefix :=
    if startswith base64_string (str "data:image")
    then split COMMA base64_string !! 1%nat
    else Some base64_string in
  match after_prefix with
  | None => None
  | Some base64_string =>
      let base64_string := remove_char LF (remove_char SPACE (strip base64_string)) in
      match b64decode base64_string with
      | None => None
      | Some image_data => Image_open image_data
      end
  end.

(** The store and the clock. *)
Variable ObjectId : Type.
Variable str_of_ObjectId : ObjectId -> Str.
Variable Time : Type.
Variable Clock : Type.
Variable utcnow : Clock -> Clock * Time.

(** [exports_collection.update_one({"entryId": id}, {"$set": doc,
    "$setOnInsert": {"createdAt": now}}, upsert=True)] and
    [ocr_collection.delete_one({"_id": id})], which returns the number of
    documents deleted; either may raise. *)
Variable Store : Type.
Variable update_one : Store -> Str -> ExportDoc Time -> Time -> Store * Outcome unit.
Variable delete_one : Store -> ObjectId -> Store * Outcome nat.

Definition export_doc_of (entry : Entry ObjectId) (results : Results) (csv_row : Row)
    (now : Time) : ExportDoc Time :=
  mkExportDoc (str_of_ObjectId (entry__id entry))
              (default (str "unknown") (entry_userId entry))
              (dict_get csv_row (str "Customer Name") [])
              (dict_get csv_row (str "Customer Address") [])
              (default [] (results_csv_raw results))
              now now.

(** The [for] loop of [process_once] over the entries it fetched.  The
    result carries the client, the store and the clock after the loop, the
    inference calls and the store writes in order, and the exception that
    cut the loop short, if any. *)
Fixpoint process_entries (entries : list (Entry ObjectId)) (model : Model)
    (store : Store) (clock : Clock)
  : Model * Store * Clock * list Call * list (StoreOp ObjectId Time) * Outcome unit :=
  match entries with
  | [] => (model, store, clock, [], [], Return tt)
  | entry :: rest =>
      let continue model store clock calls ops :=
        let '(model', store', clock', calls', ops', outcome) :=
          process_entries rest model store clock in
        (model', store', clock', calls ++ calls', ops ++ ops', outcome) in
      match entry_screenshot entry with
      | None => continue model store clock [] []
      | Some screenshot =>
          if negb (nonempty screenshot) then continue model store clock [] []
          else
            match base64_to_image screenshot with
            | None => continue model store clock [] []
            | Some image =>
                let '(model1, calls, processed) := process_screenshot image model in
                match processed with
                | Raise e => (model1, store, clock, calls, [], Raise e)
                | Return results =>
                    match results_error results, results_csv_row results with
                    | Some _, _ => continue model1 store clock calls []
                    | None, None => continue model1 store clock calls []
                    | None, Some csv_row =>
                        if bool_decide (csv_row = ∅)
                        then continue model1 store clock calls []
                        else
                          let '(clock1, now) := utcnow clock in
                          let export_doc := export_doc_of entry results csv_row now in
                          let '(store1, updated) :=
                            update_one store (str_of_ObjectId (entry__id entry))
                                       export_doc now in
                          let update_op :=
                            Update_one (str_of_ObjectId (entry__id entry))
                                       export_doc now updated in
                          match updated with
                          | Raise e =>
                              (model1, store1, clock1, calls, [update_op], Raise e)
                          | Return _ =>
                              let '(store2, deleted) :=
                                delete_one store1 (entry__id entry) in
                              let delete_op := Delete_one (entry__id entry) deleted in
                              match deleted with
                              | Raise e =>
                                  (model1, store2, clock1, calls,
                                   [update_op; delete_op], Raise e)
                              | Return _ =>
                                  continue model1 store2 clock1 calls
                                           [update_op; delete_op]
                              end
                          end
                    end
                end
            end
      end
  end.

(** The reads of the OCR collection: [count_documents(filter)],
    [list(find({"screenshot": {"$exists": True, "$ne": None}})
    .sort("createdAt", -1))] and [find_one({})]; each may raise. *)
Variable count_documents : Store -> Filter -> Store * Outcome nat.
Variable find_sorted : Store -> Store * Outcome (list (Entry ObjectId)).
Variable find_one : Store -> Store * Outcome (option (Entry ObjectId)).

(** What [process_once] does before its loop: the two counts, the
    fetch of the entries and, when there is none although the collection
    is not empty, the look at a sample document (which only feeds the
    console).  The result is the list the loop runs over; for the empty
    list the function returns at once. *)
Definition fetch_entries (store : Store) : Store * Outcome (list (Entry ObjectId)) :=
  let '(store1, counted) := count_documents store All_documents in
  match counted with
  | Raise e => (store1, Raise e)
  | Return total_entries =>
      let '(store2, counted) := count_documents store1 With_screenshot in
      match counted with
      | Raise e => (store2, Raise e)
      | Return entries_with_screenshots =>
          let '(store3, found) := find_sorted store2 in
          match found with
          | Raise e => (store3, Raise e)
          | Return [] =>
              if (0 <? total_entries)%nat then
                let '(store4, sample) := find_one store3 in
                match sample with
                | Raise e => (store4, Raise e)
                | Return _ => (store4, Return [])
                end
              else (store3, Return [])
          | Return entries => (store3, Return entries)
          end
      end
  end.

(** [process_once]: the reads, then the loop over what they fetched.
    An exception of a read leaves the function before any call of the
    client and any write. *)
Definition process_once (model : Model) (store : Store) (clock : Clock)
  : Model * Store * Clock * list Call * list (StoreOp ObjectId Time) * Outcome unit :=
  let '(store', fetched) := fetch_entries store in
  match fetched with
  | Raise e => (model, store', clock, [], [], Raise e)
  | Return entries => process_entries entries model store' clock
  end.

(** The entries a pass runs over: what its fetch returned, nothing
    when a read raised. *)
Definition fetched_entries (store : Store) : list (Entry ObjectId) :=
  match snd (fetch_entries store) with
  | Return entries => entries
  | Raise _ => []
  end.

(** An entry the pass leaves alone: no screenshot, an empty one, or one
    that does not decode. *)
Definition unusable (entry : Entry ObjectId) : Prop :=
  match entry_screenshot entry with
  | None => True
  | Some screenshot => screenshot = [] \/ base64_to_image screenshot = None
  end.

(** What the pass does with one entry: the client, the store and the
    clock after it, the calls and the writes it made, and the exception
    that ends the pass there, if any. *)
Inductive entry_step (entry : Entry ObjectId) (model : Model) (store : Store)
    (clock : Clock)
  : Model -> Store -> Clock -> list Call -> list (StoreOp ObjectId Time)
    -> option PyExc -> Prop :=
  | entry_skipped :
      unusable entry ->
      entry_step entry model store clock model store clock [] [] None
  | entry_failed (model1 : Model) (calls : list Call) :
      (length calls <= 3)%nat ->
      entry_step entry model store clock model1 store clock calls [] None
  | entry_raised (model1 : Model) (calls : list Call) (e : PyExc) (prompt : Str) :
      (length calls <= 3)%nat ->
      is_Exception e = false ->
      last calls = Some (prompt, Raise e) ->
      entry_step entry model store clock model1 store clock calls [] (Some e)
  | entry_exported (model1 : Model) (calls : list Call) (row : Row) (raw_csv : Str)
      (clock1 : Clock) (now : Time) (store1 store2 : Store) (u : unit) (n : nat) :
      let id := str_of_ObjectId (entry__id entry) in
      let doc := mkExportDoc id (default (str "unknown") (entry_userId entry))
                   (dict_get row (str "Customer Name") [])
                   (dict_get row (str "Customer Address") [])
                   raw_csv now now in
      (length calls <= 3)%nat ->
      parse_csv_row raw_csv = Return (Some row, None) ->
      validate_csv_row row = None ->
      utcnow clock = (clock1, now) ->
      update_one store id doc now = (store1, Return u) ->
      delete_one store1 (entry__id entry) = (store2, Return n) ->
      entry_step entry model store clock model1 store2 clock1 calls
        [Update_one id doc now (Return u); Delete_one (entry__id entry) (Return n)]
        None
  | entry_update_raised (model1 : Model) (calls : list Call) (row : Row)
      (raw_csv : Str) (clock1 : Clock) (now : Time) (store1 : Store) (e : PyExc) :
      let id := str_of_ObjectId (entry__id entry) in
      let doc := mkExportDoc id (default (str "unknown") (entry_userId entry))
                   (dict_get row (str "Customer Name") [])
                   (dict_get row (str "Customer Address") [])
                   raw_csv now now in
      (length calls <= 3)%nat ->
      parse_csv_row raw_csv = Return (Some row, None) ->
      validate_csv_row row = None ->
      utcnow clock = (clock1, now) ->
      update_one store id doc now = (store1, Raise e) ->
      entry_step entry model store clock model1 store1 clock1 calls
        [Update_one id doc now (Raise e)] (Some e)
  | entry_delete_raised (model1 : Model) (calls : list Call) (row : Row)
      (raw_csv : Str) (clock1 : Clock) (now : Time) (store1 store2 : Store)
      (u : unit) (e : PyExc) :
      let id := str_of_ObjectId (entry__id entry) in
      let doc := mkExportDoc id (default (str "unknown") (entry_userId entry))
                   (dict_get row (str "Customer Name") [])
                   (dict_get row (str "Customer Address") [])
                   raw_csv now now in
      (length calls <= 3)%nat ->
      parse_csv_row raw_csv = Return (Some row, None) ->
      validate_csv_row row = None ->
      utcnow clock = (clock1, now) ->
      update_one store id doc now = (store1, Return u) ->
      delete_one store1 (entry__id entry) = (store2, Raise e) ->
      entry_step entry model store clock model1 store2 clock1 calls
        [Update_one id doc now (Return u); Delete_one (entry__id entry) (Raise e)]
        (Some e).

End Script.

(** ** Notions the properties are stated with *)

(** Lower-casing of ASCII text: what [str.lower] does on it. *)
Definition ascii_lower_char (c : N) : N :=
  if (65 <=? c) && (c <=? 90) then c + 32 else c.

Definition ascii_lower (s : Str) : Str := map ascii_lower_char s.

Definition lower_on_ascii (f : Str -> Str) : Prop :=
  forall s, forallb (fun c => c <? 128) s = true -> f s = ascii_lower s.

(** The non-empty trimmed lines of a text. *)
Definition trimmed_lines (raw_text : Str) : list Str :=
  List.filter nonempty (map strip (splitlines (strip raw_text))).

(** The cascade of the specification, on the trimmed lines. *)
Definition cascade (lines : list Str) : Str :=
  match lines with
  | [] => []
  | first :: others =>
      if existsb (char_in TAB) lines then join [TAB] lines
      else if (2 <=? length lines)%nat && negb (char_in COMMA first)
      then first ++ [TAB] ++ join [SPACE] others
      else join [COMMA] (map (rstrip_chars [COMMA]) lines)
  end.

Definition normalize_cascade (raw_text : Str) : Str :=
  cascade (trimmed_lines raw_text).

(** A value that offends [validate_csv_row] for a field. *)
Definition offends (row : Row) (header : Str) : Prop :=
  let value := strip (dict_get row header []) in
  value <> [] /\ startswith (lower value) (lower header) = true.

(** An [ExtractedRow]: exactly the schema's keys, trimmed values. *)
Definition is_ExtractedRow (row : Row) : Prop :=
  dom row = list_to_set CSV_HEADERS
  /\ forall header value, row !! header = Some value -> strip value = value.

(** The values of a row in schema order, joined with tabs. *)
Definition tab_joined_line (row : Row) : Str :=
  join [TAB] (map (fun header => dict_get row header []) CSV_HEADERS).

(** A value that survives the trip through a tab-joined line: not
    empty, free of tabs and line boundaries, not opening with a double
    quote, within the reader's field limit (and free of NUL where the
    reader refuses it). *)
Definition survives_tab_line (value : Str) : bool :=
  nonempty value && negb (char_in TAB value) && negb (existsb islinebreak value)
  && negb (startswith value [QUOTE])
  && (N.of_nat (length value) <=? field_limit)
  && negb (csv_rejects_nul && char_in 0 value).

(** A token of a line delimited by [d]: free of tabs, of [d], of double
    quotes and of line boundaries, not blank, within the field limit (and
    free of NUL where the reader refuses it). *)
Definition plain_token (d : N) (t : Str) : bool :=
  forallb (fun c => negb (c =? TAB) && negb (c =? d) && negb (c =? QUOTE)
                    && negb (islinebreak c)
                    && negb (csv_rejects_nul && (c =? 0))) t
  && nonempty (strip t)
  && (N.of_nat (length t) <=? field_limit).

(** An answer the loop turns down, with the reason it records: the
    parser's error, or the validator's on a parsed row. *)
Definition answer_fails_with (raw_csv reason : Str) : Prop :=
  parse_csv_row raw_csv = Return (None, Some reason)
  \/ exists row, parse_csv_row raw_csv = Return (Some row, None)
               /\ validate_csv_row row = Some reason.

(** A text that neither begins nor ends with a character of [p], and is
    not empty. *)
Definition tight (p : N -> bool) (s : Str) : Prop :=
  (exists c t, s = c :: t /\ p c = false)
  /\ (exists t c, s = t ++ [c] /\ p c = false).

(** A text without line boundaries. *)
Definition one_line (s : Str) : Prop := forallb (fun c => negb (islinebreak c)) s = true.

(** What [parse_csv_row] can return: a row and no error, or no row and
    one of its messages; the column-count message is not among them. *)
Inductive parse_result : Outcome (option Row * option Str) -> Prop :=
  | parsed_row (row : Row) (candidate : list Str) :
      fill_result (enumerate CSV_HEADERS) candidate ∅ = Return row ->
      parse_result (Return (Some row, None))
  | parse_empty : parse_result (Return (None, Some (str "empty response")))
  | parse_csv_error (exc : csv_Error) :
      parse_result (Return (None, Some (str "parse error: " ++ csv_Error_str exc)))
  | parse_no_rows : parse_result (Return (None, Some (str "no data rows")))
  | parse_no_candidate :
      parse_result (Return (None, Some (str "no row with expected column count")))
  | parse_index_error (e : PyExc) (candidate : list Str) :
      length candidate = length CSV_HEADERS ->
      fill_result (enumerate CSV_HEADERS) candidate ∅ = Raise e ->
      parse_result (Raise e).

(** The prompt of a turn: the base prompt on the first, the prompt with
    the last reason on the others. *)
Definition prompt_of (attempt : Z) (last_error : option Str) (current_prompt : Str)
  : Str :=
  if (0 <? attempt)%Z then retry_prompt last_error else current_prompt.

(** A character that stays inside an unquoted field, and a field the
    reader hands back as it is. *)
Definition field_char (d : N) (c : N) : bool :=
  negb (c =? d) && negb (is_crnl c) && negb (csv_rejects_nul && (c =? 0)).

Definition csv_token (d : N) (t : Str) : Prop :=
  forallb (field_char d) t = true
  /\ startswith t [QUOTE] = false
  /\ t <> []
  /\ N.of_nat (length t) <= field_limit.

(** A delimiter the reader does not take for a line end or refuse. *)
Definition separator (d : N) : Prop := d = TAB \/ d = COMMA.

(** The row [parse_csv_row] builds from a candidate of two columns. *)
Definition row_of (name address : Str) : Row :=
  <[str "Customer Address" := address]> (<[str "Customer Name" := name]> ∅).

(** The states in which the reader is inside a record. *)
Definition in_record (st : ParserState) : bool :=
  match st with
  | START_FIELD | IN_FIELD | IN_QUOTED_FIELD | QUOTE_IN_QUOTED_FIELD => true
  | START_RECORD | EAT_CRNL => false
  end.

(** * Properties *)

(** ** Trimming *)

Lemma drop_while_all (p : N -> bool) (w s : Str) :
  forallb p w = true -> drop_while p (w ++ s) = drop_while p s.
Proof.
  induction w as [|c w IH]; simpl; [reflexivity|].
  intros H. apply andb_true_iff in H as [Hc Hw]. rewrite Hc. auto.
Qed.

Lemma drop_while_stop (p : N -> bool) (c : N) (s : Str) :
  p c = false -> drop_while p (c :: s) = c :: s.
Proof. intros H. simpl. now rewrite H. Qed.

Lemma drop_while_split (p : N -> bool) (s : Str) :
  exists w, s = w ++ drop_while p s /\ forallb p w = true.
Proof.
  induction s as [|c s [w [Hs Hw]]]; simpl.
  - exists []. auto.
  - destruct (p c) eqn:Hc.
    + exists (c :: w). simpl. rewrite Hc, Hw. split; [congruence | reflexivity].
    + exists []. auto.
Qed.

Lemma drop_while_head (p : N -> bool) (s : Str) (c : N) (t : Str) :
  drop_while p s = c :: t -> p c = false.
Proof.
  induction s as [|a s IH]; simpl; [discriminate|].
  destruct (p a) eqn:Ha; [assumption|]. intros H. congruence.
Qed.

Lemma drop_while_idem (p : N -> bool) (s : Str) :
  drop_while p (drop_while p s) = drop_while p s.
Proof.
  destruct (drop_while p s) as [|c t] eqn:E; [reflexivity|].
  apply drop_while_stop. eapply drop_while_head; eassumption.
Qed.

Lemma lstrip_with_tight (p : N -> bool) (w s rest : Str) :
  forallb p w = true -> tight p s ->
  lstrip_with p (w ++ s ++ rest) = s ++ rest.
Proof.
  intros Hw [[c [t [-> Hc]]] _]. unfold lstrip_with.
  rewrite drop_while_all by assumption. simpl. now rewrite Hc.
Qed.

Lemma rstrip_with_tight (p : N -> bool) (pre s w : Str) :
  forallb p w = true -> tight p s ->
  rstrip_with p (pre ++ s ++ w) = pre ++ s.
Proof.
  intros Hw [_ [t [c [-> Hc]]]]. unfold rstrip_with.
  rewrite !rev_app_distr. rewrite <- !app_assoc.
  rewrite drop_while_all by (rewrite forallb_forall in *; intros x Hx;
                             apply Hw, in_rev; assumption).
  simpl. rewrite Hc. simpl.
  rewrite rev_app_distr, !rev_involutive, <- app_assoc. reflexivity.
Qed.

(** Every text is blank, or a tight core between two runs of [p]. *)
Lemma tight_core (p : N -> bool) (s : Str) :
  forallb p s = true
  \/ exists w1 core w2, s = w1 ++ core ++ w2
       /\ forallb p w1 = true /\ forallb p w2 = true /\ tight p core.
Proof.
  destruct (drop_while_split p s) as [w1 [Hs Hw1]].
  destruct (drop_while p s) as [|c t] eqn:E.
  - left. rewrite Hs, app_nil_r. assumption.
  - right. pose proof (drop_while_head _ _ _ _ E) as Hc.
    destruct (drop_while_split p (rev (c :: t))) as [w2 [Hr Hw2]].
    destruct (drop_while p (rev (c :: t))) as [|c' t'] eqn:E'.
    + exfalso. rewrite app_nil_r in Hr. rewrite <- Hr in Hw2.
      rewrite forallb_forall in Hw2. specialize (Hw2 c).
      rewrite Hw2 in Hc; [discriminate|]. apply -> in_rev. now left.
    + pose proof (drop_while_head _ _ _ _ E') as Hc'.
      apply (f_equal (@rev N)) in Hr. rewrite rev_involutive in Hr.
      rewrite rev_app_distr in Hr. simpl in Hr.
      exists w1, (rev t' ++ [c']), (rev w2). repeat split.
      * rewrite Hs. f_equal. exact Hr.
      * assumption.
      * rewrite forallb_forall in *. intros x Hx. apply Hw2, in_rev. assumption.
      * destruct (rev t') as [|a r] eqn:Et.
        -- exists c', []. simpl in Hr. split; [reflexivity|assumption].
        -- exists a, (r ++ [c']). split; [reflexivity|].
           simpl in Hr. congruence.
      * exists (rev t'), c'. auto.
Qed.

Lemma tight_nonempty (p : N -> bool) (s : Str) : tight p s -> s <> [].
Proof. intros [[c [t [-> _]]] _]. discriminate. Qed.

Lemma strip_blank (s : Str) : forallb isspace s = true -> strip s = [].
Proof.
  intros H. unfold strip, lstrip_with, rstrip_with.
  rewrite <- (app_nil_r s), drop_while_all by assumption. reflexivity.
Qed.

Lemma strip_core (w1 core w2 : Str) :
  forallb isspace w1 = true -> forallb isspace w2 = true -> tight isspace core ->
  strip (w1 ++ core ++ w2) = core.
Proof.
  intros H1 H2 Ht. unfold strip.
  rewrite lstrip_with_tight by assumption.
  apply (rstrip_with_tight isspace [] core w2); assumption.
Qed.

Lemma strip_tight (s : Str) : tight isspace s -> strip s = s.
Proof.
  intros Ht. rewrite <- (strip_core [] s []) at 2 by (auto; reflexivity).
  now rewrite app_nil_r.
Qed.

(** [str.strip] gives the empty text or a tight one. *)
Lemma strip_result (s : Str) : strip s = [] \/ tight isspace (strip s).
Proof.
  destruct (tight_core isspace s) as [Hb | [w1 [core [w2 [-> [H1 [H2 Ht]]]]]]].
  - left. now apply strip_blank.
  - right. now rewrite strip_core.
Qed.

Lemma strip_idem (s : Str) : strip (strip s) = strip s.
Proof.
  destruct (strip_result s) as [E | Ht].
  - rewrite E. reflexivity.
  - now apply strip_tight.
Qed.

Lemma nonempty_true {A} (l : list A) : nonempty l = true <-> l <> [].
Proof. destruct l; simpl; split; congruence. Qed.

Lemma nonempty_false {A} (l : list A) : nonempty l = false <-> l = [].
Proof. destruct l; simpl; split; congruence. Qed.

(** ** The candidate loop and the result dictionary *)

Lemma CSV_HEADERS_length : length CSV_HEADERS = 2%nat.
Proof. reflexivity. Qed.

Lemma slice_last_length {A} (n : nat) (l : list A) :
  (0 < n)%nat -> (n <= length l)%nat -> length (slice_last n l) = n.
Proof.
  intros Hn Hl. destruct n as [|n]; [lia|].
  unfold slice_last. rewrite length_drop. lia.
Qed.

Lemma candidate_step_length (candidate : option (list Str)) (row : list Str) :
  (forall c, candidate = Some c -> length c = length CSV_HEADERS) ->
  forall c, candidate_step candidate row = Some c -> length c = length CSV_HEADERS.
Proof.
  intros Hinv c. unfold candidate_step.
  destruct (negb (nonempty (map strip row))); [apply Hinv|].
  destruct (bool_decide _); [apply Hinv|].
  destruct (length CSV_HEADERS <=? length (map strip row))%nat eqn:Hle;
    [|apply Hinv].
  intros [= <-]. apply Nat.leb_le in Hle.
  change (length (slice_last (length CSV_HEADERS) (map strip row))
          = length CSV_HEADERS).
  apply slice_last_length; [rewrite CSV_HEADERS_length; lia | exact Hle].
Qed.

Lemma fold_candidate_length (rows : list (list Str)) (candidate : option (list Str)) :
  (forall c, candidate = Some c -> length c = length CSV_HEADERS) ->
  forall c, fold_left candidate_step rows candidate = Some c ->
            length c = length CSV_HEADERS.
Proof.
  revert candidate. induction rows as [|row rows IH]; intros candidate Hinv c; simpl.
  - apply Hinv.
  - apply IH. now apply candidate_step_length.
Qed.

Lemma select_candidate_length (rows : list (list Str)) (c : list Str) :
  select_candidate rows = Some c -> length c = length CSV_HEADERS.
Proof. apply fold_candidate_length. discriminate. Qed.

Lemma expected_columns_msg_head (k j : nat) :
  exists t, expected_columns_msg k j = 101 :: 120 :: t.
Proof. unfold expected_columns_msg. eexists. reflexivity. Qed.

Lemma parse_csv_row_result (raw_text : Str) : parse_result (parse_csv_row raw_text).
Proof.
  unfold parse_csv_row.
  destruct (negb (nonempty (normalize_raw_text raw_text))); [constructor|].
  destruct (csv_reader _ _) as [exc | records]; [constructor|].
  destruct (negb (nonempty (List.filter nonempty records))); [constructor|].
  destruct (select_candidate _) as [candidate|] eqn:Hsel; [|constructor].
  apply select_candidate_length in Hsel.
  rewrite Hsel, Nat.eqb_refl. cbn [negb].
  destruct (fill_result _ candidate ∅) as [row | e] eqn:Hfill.
  - econstructor; eassumption.
  - econstructor; eassumption.
Qed.

Ltac head_clash H :=
  try discriminate H;
  match type of H with
  | context [expected_columns_msg ?k ?j] =>
      let t := fresh "t" in let E := fresh "E" in
      destruct (expected_columns_msg_head k j) as [t E];
      rewrite E in H; discriminate H
  end.

(** C8. The column-count branch of [parse_csv_row] is dead code: a
    candidate the selection loop leaves behind always has exactly
    [len(CSV_HEADERS)] tokens, so [parse_csv_row] never returns the
    message "expected K columns, got J", whatever the input. *)
Theorem column_count_check_never_fails :
  (forall rows candidate,
      select_candidate rows = Some candidate ->
      length candidate = length CSV_HEADERS)
  /\ (forall raw_text j,
         parse_csv_row raw_text
         <> Return (None, Some (expected_columns_msg (length CSV_HEADERS) j))).
Proof.
  split; [apply select_candidate_length|].
  intros raw_text j H.
  pose proof (parse_csv_row_result raw_text) as R. rewrite H in R.
  inversion R as [ | E | exc E | E | E | ]; head_clash E.
Qed.

Lemma fill_result_spec (items : list (nat * Str)) (candidate : list Str) (acc row : Row) :
  fill_result items candidate acc = Return row ->
  (forall k v, acc !! k = Some v -> strip v = v) ->
  dom row = dom acc ∪ list_to_set (map snd items)
  /\ (forall k v, row !! k = Some v -> strip v = v).
Proof.
  revert acc. induction items as [|[idx header] items IH]; intros acc; simpl.
  - intros [= <-] Hacc. split; [set_solver | exact Hacc].
  - destruct (candidate !! idx) as [col|]; [|discriminate].
    intros Hfill Hacc. apply IH in Hfill as [Hdom Hval].
    + split; [|exact Hval]. rewrite Hdom, dom_insert_L. set_solver.
    + intros k v. rewrite lookup_insert. case_decide.
      * intros [= <-]. apply strip_idem.
      * apply Hacc.
Qed.

Lemma parsed_row_shape (raw_text : Str) (row : Row) (err : option Str) :
  parse_csv_row raw_text = Return (Some row, err) ->
  is_ExtractedRow row /\ err = None.
Proof.
  intros H. pose proof (parse_csv_row_result raw_text) as R. rewrite H in R.
  inversion R as [row' candidate Hfill | | | | | ]; subst.
  split; [|reflexivity].
  apply fill_result_spec in Hfill as [Hdom Hval];
    [|intros k v; rewrite lookup_empty; discriminate].
  split; [|exact Hval].
  rewrite Hdom, dom_empty_L. set_solver.
Qed.

(** C6. Whenever [parse_csv_row] succeeds, the keys of the row are
    exactly the names of [CSV_HEADERS] and every value is already
    trimmed: trimming it again changes nothing. *)
Theorem parse_csv_row_returns_extracted_row (raw_text : Str) (row : Row)
    (err : option Str) :
  parse_csv_row raw_text = Return (Some row, err) ->
  dom row = list_to_set CSV_HEADERS
  /\ (forall header value, row !! header = Some value -> strip value = value).
Proof. intros H. apply parsed_row_shape in H as [H _]. exact H. Qed.

Lemma parse_error_nonempty (raw_text : Str) (err : option Str) :
  parse_csv_row raw_text = Return (None, err) ->
  exists e, err = Some e /\ e <> [].
Proof.
  intros H. pose proof (parse_csv_row_result raw_text) as R. rewrite H in R.
  inversion R; subst; eexists; (split; [reflexivity | discriminate]).
Qed.

Lemma parsed_row_not_empty (raw_text : Str) (row : Row) (err : option Str) :
  parse_csv_row raw_text = Return (Some row, err) -> row <> ∅.
Proof.
  intros H. apply parsed_row_shape in H as [[Hdom _] _]. intros ->.
  rewrite dom_empty_L in Hdom.
  assert (str "Customer Name" ∈ (∅ : gset (list N))) as Hin
      by (rewrite Hdom; unfold CSV_HEADERS; set_solver).
  set_solver.
Qed.

(** ** The retry loop *)

Lemma validate_headers_error (headers : list Str) (row : Row) (e : Str) :
  validate_headers headers row = Some e ->
  exists header, In header headers /\ e = placeholder_msg header.
Proof.
  induction headers as [|header headers IH]; simpl; [discriminate|].
  destruct (_ && _).
  - intros [= <-]. exists header. auto.
  - intros H. destruct (IH H) as [h [Hin He]]. exists h. auto.
Qed.

Lemma validate_error_nonempty (row : Row) (e : Str) :
  validate_csv_row row = Some e -> nonempty e = true.
Proof.
  intros H. apply validate_headers_error in H as [header [_ ->]].
  unfold placeholder_msg. destruct header; reflexivity.
Qed.

(** A turn of the loop either leaves the function after its call, with
    the client's exception if the call raised, or goes round again after
    an answer. *)
Lemma attempts_turn (image : Image) (remaining : nat) (attempt : Z)
    (last_error : option Str) (current_prompt : Str) (model : Model) :
  let prompt := prompt_of attempt last_error current_prompt in
  let model1 := fst (query model image prompt) in
  let result := snd (query model image prompt) in
  (exists o,
      attempts image (S remaining) attempt last_error current_prompt model
      = (model1, [(prompt, result)], Left_function o)
      /\ (forall e, result = Raise e -> o = Raise e))
  \/ (exists response reason,
         result = Return response
         /\ attempts image (S remaining) attempt last_error current_prompt model
            = (let '(model2, calls, exit) :=
                 attempts image remaining (attempt + 1)%Z (Some reason) prompt model1 in
               (model2, (prompt, result) :: calls, exit))).
Proof.
  intros prompt model1 result. subst model1 result. unfold prompt_of in prompt.
  cbn [attempts]. fold prompt.
  destruct (query model image prompt) as [model1 [response | e]]; cbn [fst snd].
  2: { left. eexists. split; [reflexivity | congruence]. }
  destruct (parse_csv_row _) as [[[row|] parse_error] | e].
  - destruct (bool_decide (row = ∅)).
    + right. eexists. eexists. split; reflexivity.
    + destruct (validate_csv_row row) as [validation_error|].
      * destruct (nonempty validation_error).
        -- right. eexists. eexists. split; reflexivity.
        -- left. eexists. split; [reflexivity | discriminate].
      * left. eexists. split; [reflexivity | discriminate].
  - right. eexists. eexists. split; reflexivity.
  - left. eexists. split; [reflexivity | discriminate].
Qed.

(** A turn whose answer is turned down records the reason and goes
    round again. *)
Lemma attempts_turn_fails (image : Image) (remaining : nat) (attempt : Z)
    (last_error : option Str) (current_prompt : Str) (model model1 : Model)
    (response : Row) (reason : Str) :
  let prompt := prompt_of attempt last_error current_prompt in
  query model image prompt = (model1, Return response) ->
  answer_fails_with (strip (dict_get response (str "answer") [])) reason ->
  attempts image (S remaining) attempt last_error current_prompt model
  = (let '(model2, calls, exit) :=
       attempts image remaining (attempt + 1)%Z (Some reason) prompt model1 in
     (model2, (prompt, Return response) :: calls, exit)).
Proof.
  intros prompt Hq Hfail. unfold prompt_of in prompt.
  cbn [attempts]. fold prompt. rewrite Hq.
  destruct Hfail as [Hparse | [row [Hparse Hval]]]; rewrite Hparse.
  - apply parse_error_nonempty in Hparse as [e [[= <-] Hne]].
    apply nonempty_true in Hne. rewrite Hne. reflexivity.
  - apply parsed_row_not_empty in Hparse.
    rewrite bool_decide_eq_false_2 by assumption.
    rewrite Hval, (validate_error_nonempty _ _ Hval). reflexivity.
Qed.

Lemma attempts_all_fail (image : Image) :
  (forall model prompt, exists model1 response reason,
      query model image prompt = (model1, Return response)
      /\ answer_fails_with (strip (dict_get response (str "answer") [])) reason) ->
  forall remaining attempt last_error current_prompt model,
  exists model' calls prompt response reason,
    attempts image (S remaining) attempt last_error current_prompt model
    = (model', calls, Exhausted (Some reason))
    /\ length calls = S remaining
    /\ last calls = Some (prompt, Return response)
    /\ answer_fails_with (strip (dict_get response (str "answer") [])) reason.
Proof.
  intros Hstub remaining.
  induction remaining as [|remaining IH]; intros attempt last_error current_prompt model.
  - destruct (Hstub model (prompt_of attempt last_error current_prompt))
      as [model1 [response [reason [Hq Hfail]]]].
    exists model1, [(prompt_of attempt last_error current_prompt, Return response)].
    exists (prompt_of attempt last_error current_prompt), response, reason.
    rewrite (attempts_turn_fails _ _ _ _ _ _ _ _ _ Hq Hfail). auto.
  - destruct (Hstub model (prompt_of attempt last_error current_prompt))
      as [model1 [response [reason [Hq Hfail]]]].
    rewrite (attempts_turn_fails _ _ _ _ _ _ _ _ _ Hq Hfail).
    destruct (IH (attempt + 1)%Z (Some reason)
                 (prompt_of attempt last_error current_prompt) model1)
      as [model' [calls [prompt [response' [reason' [Hrun [Hlen [Hlast Hfail']]]]]]]].
    rewrite Hrun.
    exists model', ((prompt_of attempt last_error current_prompt, Return response) :: calls).
    exists prompt, response', reason'. repeat split; auto.
    + simpl. now rewrite Hlen.
    + destruct calls as [|c calls]; [discriminate|]. exact Hlast.
Qed.

(** C1. With [max_attempts = K >= 1] and a client whose every answer is
    turned down (by the parser or by the validator), [request_csv_row]
    calls [model.query] exactly [K] times and then raises the
    [ValueError] whose message names [K] attempts and ends with the reason
    recorded for the last answer. *)
Theorem request_csv_row_exhausts (image : Image) (model : Model) (K : Z) :
  (1 <= K)%Z ->
  (forall model prompt, exists model1 response reason,
      query model image prompt = (model1, Return response)
      /\ answer_fails_with (strip (dict_get response (str "answer") [])) reason) ->
  exists model' calls prompt response reason,
    request_csv_row image model K
    = (model', calls,
       Raise (ValueError (str "Failed to obtain valid CSV row after "
                          ++ str_of_int K ++ str " attempts: " ++ reason)))
    /\ length calls = Z.to_nat K
    /\ last calls = Some (prompt, Return response)
    /\ answer_fails_with (strip (dict_get response (str "answer") [])) reason.
Proof.
  intros HK Hstub. unfold request_csv_row.
  destruct (Z.to_nat K) as [|remaining] eqn:EK; [lia|].
  destruct (attempts_all_fail image Hstub remaining 0%Z None CSV_PROMPT model)
    as [model' [calls [prompt [response [reason [Hrun [Hlen [Hlast Hfail]]]]]]]].
  rewrite Hrun. exists model', calls, prompt, response, reason. auto.
Qed.

Lemma attempts_raise_is_last (image : Image) (remaining : nat) :
  forall attempt last_error current_prompt model model' calls exit i prompt e,
    attempts image remaining attempt last_error current_prompt model
    = (model', calls, exit) ->
    calls !! i = Some (prompt, Raise e) ->
    length calls = S i /\ exit = Left_function (Raise e).
Proof.
  induction remaining as [|remaining IH];
    intros attempt last_error current_prompt model model' calls exit i prompt e.
  - simpl. intros [= <- <- <-]. discriminate.
  - destruct (attempts_turn image remaining attempt last_error current_prompt model)
      as [[o [Hrun Ho]] | [response [reason [Hres Hrun]]]]; rewrite Hrun.
    + intros [= <- <- <-]. destruct i as [|i]; [|discriminate].
      intros [= _ Hraise]. split; [reflexivity|]. f_equal. now apply Ho.
    + destruct (attempts image remaining _ _ _ _) as [[model2 calls'] exit'] eqn:Hrest.
      intros [= <- <- <-]. destruct i as [|i].
      * intros [= _ Hraise]. congruence.
      * intros Hi. simpl in Hi.
        destruct (IH _ _ _ _ _ _ _ _ _ _ Hrest Hi) as [Hlen Hexit].
        split; [simpl; now rewrite Hlen | exact Hexit].
Qed.

(** C7. An exception raised by [model.query] leaves [request_csv_row]
    at once and as it is: the call that raised is the last call made,
    whatever is left of the budget, and the outcome is that very
    exception, not the exhaustion failure. *)
Theorem query_exception_propagates (image : Image) (model model' : Model)
    (max_attempts : Z) (calls : list Call) (outcome : Outcome (Row * Str))
    (i : nat) (prompt : Str) (e : PyExc) :
  request_csv_row image model max_attempts = (model', calls, outcome) ->
  calls !! i = Some (prompt, Raise e) ->
  length calls = S i /\ outcome = Raise e.
Proof.
  unfold request_csv_row.
  destruct (attempts image _ _ _ _ _) as [[model2 calls'] exit] eqn:Hrun.
  intros Hreq Hi.
  assert (calls' = calls) as -> by (destruct exit; congruence).
  destruct (attempts_raise_is_last _ _ _ _ _ _ _ _ _ _ _ _ Hrun Hi) as [Hlen ->].
  split; [exact Hlen | congruence].
Qed.

(** C10 (amended). With [max_attempts] zero or negative,
    [request_csv_row] calls [model.query] not once and raises the
    [ValueError] whose message carries [max_attempts] as given and [None]
    for the reason: "... after 0 attempts: None" for zero, "... after -1
    attempts: None" for minus one. *)
Theorem request_csv_row_without_attempts (image : Image) (model : Model)
    (max_attempts : Z) :
  (max_attempts <= 0)%Z ->
  request_csv_row image model max_attempts
  = (model, [],
     Raise (ValueError (str "Failed to obtain valid CSV row after "
                        ++ str_of_int max_attempts ++ str " attempts: None"))).
Proof.
  intros H. unfold request_csv_row.
  replace (Z.to_nat max_attempts) with 0%nat by lia. reflexivity.
Qed.

(** ** The validator *)

Lemma offends_iff (row : Row) (header : Str) :
  nonempty (strip (dict_get row header []))
  && startswith (lower (strip (dict_get row header []))) (lower header) = true
  <-> offends row header.
Proof.
  unfold offends. cbn zeta. rewrite andb_true_iff, nonempty_true. reflexivity.
Qed.

Lemma validate_headers_none (headers : list Str) (row : Row) :
  validate_headers headers row = None
  <-> Forall (fun h => ~ offends row h) headers.
Proof.
  induction headers as [|header headers IH]; simpl.
  - split; [constructor | reflexivity].
  - destruct (_ && _) eqn:E.
    + split; [discriminate|]. intros H. inversion H as [|? ? Hno _]; subst.
      exfalso. apply Hno, offends_iff, E.
    + rewrite IH. split.
      * intros H. constructor; [|exact H]. rewrite <- offends_iff, E. discriminate.
      * intros H. now inversion H.
Qed.

Lemma validate_headers_some (headers : list Str) (row : Row) (e : Str) :
  validate_headers headers row = Some e
  <-> exists before header after,
        headers = before ++ header :: after
        /\ Forall (fun h => ~ offends row h) before
        /\ offends row header
        /\ e = placeholder_msg header.
Proof.
  revert e. induction headers as [|header headers IH]; intros e; simpl.
  - split; [discriminate|]. intros [before [h [after [H _]]]].
    destruct before; discriminate.
  - destruct (_ && _) eqn:E.
    + split.
      * intros [= <-]. exists [], header, headers.
        split; [reflexivity|]. split; [constructor|].
        split; [apply offends_iff, E | reflexivity].
      * intros [before [h [after [Hsplit [Hbefore [Hoff ->]]]]]].
        destruct before as [|b before]; simpl in Hsplit.
        -- congruence.
        -- injection Hsplit as <- _. inversion Hbefore as [|? ? Hno _]; subst.
           exfalso. apply Hno, offends_iff, E.
    + rewrite IH. split.
      * intros [before [h [after [-> [Hbefore [Hoff ->]]]]]].
        exists (header :: before), h, after.
        split; [reflexivity|]. split; [|split; [exact Hoff | reflexivity]].
        constructor; [|exact Hbefore]. rewrite <- offends_iff, E. discriminate.
      * intros [before [h [after [Hsplit [Hbefore [Hoff ->]]]]]].
        destruct before as [|b before]; simpl in Hsplit.
        -- injection Hsplit as -> _. apply offends_iff in Hoff. congruence.
        -- injection Hsplit as <- ->. exists before, h, after.
           inversion Hbefore; subst. auto.
Qed.

Lemma placeholder_msg_inj (h1 h2 : Str) :
  placeholder_msg h1 = placeholder_msg h2 -> h1 = h2.
Proof. unfold placeholder_msg. apply app_inv_tail. Qed.

(** C5. [validate_csv_row] returns "<field> still contains placeholder
    text" exactly when <field> is the first field, in the order of
    [CSV_HEADERS], whose trimmed value is not empty and, lower-cased,
    starts with the lower-cased field name; it returns no error exactly
    when no field has such a value, and it has no other error.  The value
    "Customer Name: Jane Doe" for "Customer Name" is turned down and the
    value "Jane Doe" passes. *)
Theorem validate_csv_row_placeholder :
  lower_on_ascii lower ->
  (forall row header,
      validate_csv_row row = Some (placeholder_msg header)
      <-> exists before after,
            CSV_HEADERS = before ++ header :: after
            /\ Forall (fun h => ~ offends row h) before
            /\ offends row header)
  /\ (forall row,
         validate_csv_row row = None
         <-> Forall (fun h => ~ offends row h) CSV_HEADERS)
  /\ (forall row e,
         validate_csv_row row = Some e ->
         exists header, In header CSV_HEADERS /\ e = placeholder_msg header)
  /\ (forall row : Row,
         row !! str "Customer Name" = Some (str "Customer Name: Jane Doe") ->
         validate_csv_row row
         = Some (str "Customer Name still contains placeholder text"))
  /\ (forall row : Row,
         row !! str "Customer Name" = Some (str "Jane Doe") ->
         ~ offends row (str "Customer Name")).
Proof.
  intros Hlower. repeat split.
  - intros H. apply validate_headers_some in H
      as [before [h [after [Hsplit [Hbefore [Hoff Hmsg]]]]]].
    apply placeholder_msg_inj in Hmsg as ->. eauto.
  - intros [before [after [Hsplit [Hbefore Hoff]]]].
    apply validate_headers_some. exists before, header, after. auto.
  - apply validate_headers_none.
  - apply validate_headers_none.
  - intros row e H. apply validate_headers_error in H. exact H.
  - intros row Hrow. unfold validate_csv_row, CSV_HEADERS. cbn [validate_headers].
    unfold dict_get at 1 2. rewrite Hrow. cbn [default].
    replace (strip (str "Customer Name: Jane Doe"))
      with (str "Customer Name: Jane Doe") by (vm_compute; reflexivity).
    rewrite !Hlower by reflexivity. reflexivity.
  - intros row Hrow [_ Hstart]. unfold dict_get in Hstart.
    rewrite Hrow in Hstart. cbn [default] in Hstart.
    replace (strip (str "Jane Doe")) with (str "Jane Doe") in Hstart
      by (vm_compute; reflexivity).
    rewrite !Hlower in Hstart by reflexivity. discriminate Hstart.
Qed.

(** ** The normaliser as a cascade *)

Lemma map_filter_pre {A B} (f : A -> B) (p : B -> bool) (l : list A) :
  map f (List.filter (fun x => p (f x)) l) = List.filter p (map f l).
Proof.
  induction l as [|x l IH]; simpl; [reflexivity|].
  destruct (p (f x)); simpl; now rewrite IH.
Qed.

Lemma filter_filter_same {A} (p : A -> bool) (l : list A) :
  List.filter p (List.filter p l) = List.filter p l.
Proof.
  induction l as [|x l IH]; simpl; [reflexivity|].
  destruct (p x) eqn:E; simpl; [rewrite E, IH|]; auto.
Qed.

Lemma normalize_raw_text_cascade (raw_text : Str) :
  normalize_raw_text raw_text = cascade (trimmed_lines raw_text).
Proof.
  unfold normalize_raw_text, trimmed_lines. rewrite map_filter_pre.
  destruct (strip raw_text) as [|c s] eqn:Hs; [reflexivity|].
  cbn [nonempty negb].
  assert (List.filter nonempty (List.filter nonempty (map strip (splitlines (c :: s))))
          = List.filter nonempty (map strip (splitlines (c :: s)))) as Hff
      by apply filter_filter_same.
  destruct (List.filter nonempty (map strip (splitlines (c :: s))))
    as [|first others]; [reflexivity|].
  cbn [nonempty negb cascade hd tl]. rewrite Hff. reflexivity.
Qed.

(** C2. [normalize_raw_text] is the cascade of the specification on
    every input: the non-empty trimmed lines of the trimmed text; nothing
    for no lines; the lines joined with tabs when a line holds a tab;
    else, for two lines or more and a first line without a comma, the
    first line, a tab and the other lines joined with spaces; else the
    lines, each without its trailing commas, joined with commas.  Being a
    function of the text alone, it always returns. *)
Theorem normalize_raw_text_is_cascade (raw_text : Str) :
  normalize_raw_text raw_text = normalize_cascade raw_text.
Proof. apply normalize_raw_text_cascade. Qed.

(** ** Lines *)

Lemma splitlines_from_one_line (l cur : Str) :
  one_line l ->
  splitlines_from cur l = match cur ++ l with [] => [] | _ => [cur ++ l] end.
Proof.
  unfold one_line. revert cur. induction l as [|c l IH]; intros cur Hl; simpl.
  - rewrite app_nil_r. reflexivity.
  - simpl in Hl. apply andb_true_iff in Hl as [Hc Hl].
    apply negb_true_iff in Hc. rewrite Hc, IH by assumption.
    rewrite <- app_assoc. reflexivity.
Qed.

Lemma splitlines_one_line (l : Str) :
  one_line l -> l <> [] -> splitlines l = [l].
Proof.
  intros Hl Hne. unfold splitlines. rewrite splitlines_from_one_line by assumption.
  simpl. destruct l; congruence.
Qed.

(** A boundary that is not the carriage return of a CR LF pair ends the
    line being read. *)
Lemma splitlines_from_break (l cur : Str) (nl : N) (rest : Str) :
  one_line l -> islinebreak nl = true -> one_line (firstn 1 rest) ->
  splitlines_from cur (l ++ nl :: rest) = (cur ++ l) :: splitlines_from [] rest.
Proof.
  unfold one_line. revert cur. induction l as [|c l IH]; intros cur Hl Hnl Hrest; simpl.
  - rewrite Hnl, app_nil_r. destruct rest as [|c' rest]; [reflexivity|].
    simpl in Hrest. rewrite andb_true_r in Hrest.
    replace (c' =? LF) with false; [now rewrite andb_false_r|].
    symmetry. apply N.eqb_neq. intros ->. discriminate.
  - simpl in Hl. apply andb_true_iff in Hl as [Hc Hl].
    apply negb_true_iff in Hc. rewrite Hc, IH by assumption.
    rewrite <- app_assoc. reflexivity.
Qed.

Lemma one_line_app (a b : Str) : one_line (a ++ b) <-> one_line a /\ one_line b.
Proof. unfold one_line. rewrite forallb_app, andb_true_iff. reflexivity. Qed.

Lemma splitlines_from_lines (n : nat) :
  forall s cur, (length s <= n)%nat -> one_line cur ->
                Forall one_line (splitlines_from cur s).
Proof.
  induction n as [|n IH]; intros s cur Hn Hcur.
  - destruct s; [|simpl in Hn; lia]. simpl. destruct cur; repeat constructor; assumption.
  - destruct s as [|c rest]; simpl.
    + destruct cur; repeat constructor; assumption.
    + simpl in Hn. destruct (islinebreak c) eqn:Hc.
      * destruct rest as [|c' rest']; [repeat constructor; assumption|].
        simpl in Hn.
        destruct ((c =? CR) && (c' =? LF)); constructor; try assumption;
          apply IH; simpl; try lia; reflexivity.
      * apply IH; [lia|]. apply one_line_app. split; [assumption|].
        unfold one_line. simpl. now rewrite Hc.
Qed.

Lemma splitlines_lines (s : Str) : Forall one_line (splitlines s).
Proof. apply (splitlines_from_lines (length s)); [lia | reflexivity]. Qed.

(** Trimming keeps whatever holds of every character. *)
Lemma forallb_drop_while (P p : N -> bool) (s : Str) :
  forallb P s = true -> forallb P (drop_while p s) = true.
Proof.
  induction s as [|c s IH]; simpl; [reflexivity|].
  intros H. destruct (p c); [|exact H].
  apply andb_true_iff in H as [_ H]. auto.
Qed.

Lemma forallb_rev (P : N -> bool) (s : Str) : forallb P (rev s) = forallb P s.
Proof.
  induction s as [|c s IH]; simpl; [reflexivity|].
  rewrite forallb_app, IH. simpl. rewrite andb_true_r. apply andb_comm.
Qed.

Lemma forallb_lstrip_with (P p : N -> bool) (s : Str) :
  forallb P s = true -> forallb P (lstrip_with p s) = true.
Proof. apply forallb_drop_while. Qed.

Lemma forallb_rstrip_with (P p : N -> bool) (s : Str) :
  forallb P s = true -> forallb P (rstrip_with p s) = true.
Proof.
  intros H. unfold rstrip_with. rewrite forallb_rev.
  apply forallb_drop_while. now rewrite forallb_rev.
Qed.

Lemma forallb_strip (P : N -> bool) (s : Str) :
  forallb P s = true -> forallb P (strip s) = true.
Proof. intros H. now apply forallb_rstrip_with, forallb_lstrip_with. Qed.

(** The trimmed lines of a text are tight and hold no line boundary. *)
Lemma trimmed_lines_shape (raw_text : Str) :
  Forall (fun line => tight isspace line /\ one_line line) (trimmed_lines raw_text).
Proof.
  unfold trimmed_lines. apply List.Forall_forall. intros line Hin.
  apply filter_In in Hin as [Hin Hne]. apply in_map_iff in Hin as [l0 [<- Hin]].
  split.
  - destruct (strip_result l0) as [E | Ht]; [|exact Ht].
    rewrite E in Hne. discriminate.
  - apply forallb_strip.
    pose proof (splitlines_lines (strip raw_text)) as Hall.
    rewrite List.Forall_forall in Hall. now apply Hall.
Qed.

(** ** Joining *)

Lemma join_cons (sep p : Str) (rest : list Str) :
  rest <> [] -> join sep (p :: rest) = p ++ sep ++ join sep rest.
Proof. destruct rest; [congruence | reflexivity]. Qed.

Lemma tight_app (p : N -> bool) (a mid b : Str) :
  tight p a -> tight p b -> tight p (a ++ mid ++ b).
Proof.
  intros [[c [t [-> Hc]]] _] [_ [t' [c' [-> Hc']]]]. split.
  - exists c, (t ++ mid ++ t' ++ [c']). auto.
  - exists ((c :: t) ++ mid ++ t'), c'. split; [|assumption].
    now rewrite <- !app_assoc.
Qed.

Lemma join_tight (p : N -> bool) (sep : Str) (lines : list Str) :
  lines <> [] -> Forall (tight p) lines -> tight p (join sep lines).
Proof.
  induction lines as [|l lines IH]; [congruence|]. intros _ Hall.
  inversion Hall as [|? ? Hl Hrest]; subst.
  destruct lines as [|l2 lines]; [exact Hl|].
  rewrite join_cons by discriminate.
  apply tight_app; [exact Hl|]. apply IH; [discriminate | exact Hrest].
Qed.

Lemma forallb_join (P : N -> bool) (sep : Str) (lines : list Str) :
  forallb P sep = true -> Forall (fun l => forallb P l = true) lines ->
  forallb P (join sep lines) = true.
Proof.
  intros Hsep. induction lines as [|l lines IH]; [reflexivity|]. intros Hall.
  inversion Hall as [|? ? Hl Hrest]; subst.
  destruct lines as [|l2 lines]; [exact Hl|].
  rewrite join_cons by discriminate.
  rewrite !forallb_app, Hl, Hsep. simpl. apply IH, Hrest.
Qed.

Lemma char_in_app (c : N) (a b : Str) : char_in c (a ++ b) = char_in c a || char_in c b.
Proof. apply existsb_app. Qed.

Lemma char_in_join (c : N) (sep : Str) (lines : list Str) :
  existsb (char_in c) lines = true -> char_in c (join sep lines) = true.
Proof.
  induction lines as [|l lines IH]; [discriminate|].
  destruct lines as [|l2 lines].
  - simpl. now rewrite orb_false_r.
  - rewrite join_cons by discriminate. intros H.
    change (char_in c l || existsb (char_in c) (l2 :: lines) = true) in H.
    rewrite !char_in_app. destruct (char_in c l); [reflexivity|].
    simpl in H. rewrite (IH H). apply orb_true_r.
Qed.

Lemma char_in_false (c : N) (s : Str) :
  char_in c s = false <-> forallb (fun x => negb (x =? c)) s = true.
Proof.
  unfold char_in. induction s as [|x s IH]; simpl; [tauto|].
  rewrite orb_false_iff, andb_true_iff, IH, negb_true_iff, N.eqb_sym. reflexivity.
Qed.

(** ** Normalising twice *)

(** A tight line that holds a tab is its own normal form. *)
Lemma normalize_raw_text_fixed (r : Str) :
  tight isspace r -> one_line r -> char_in TAB r = true ->
  normalize_raw_text r = r.
Proof.
  intros Ht Hl Htab. rewrite normalize_raw_text_cascade. unfold trimmed_lines.
  rewrite (strip_tight r Ht).
  rewrite (splitlines_one_line r Hl (tight_nonempty _ _ Ht)).
  cbn [map]. rewrite (strip_tight r Ht). cbn [List.filter].
  rewrite (proj2 (nonempty_true r) (tight_nonempty _ _ Ht)).
  cbn [cascade existsb]. rewrite Htab. reflexivity.
Qed.

Lemma existsb_false_Forall {A} (p : A -> bool) (l : list A) :
  existsb p l = false -> Forall (fun x => p x = false) l.
Proof.
  induction l as [|x l IH]; simpl; [constructor|].
  intros H. apply orb_false_iff in H as [Hx Hl]. constructor; auto.
Qed.

(** The normal form holds a tab only on the first two rungs of the
    cascade, and is then a tight line. *)
Lemma normalize_raw_text_with_tab (raw_text : Str) :
  char_in TAB (normalize_raw_text raw_text) = true ->
  tight isspace (normalize_raw_text raw_text)
  /\ one_line (normalize_raw_text raw_text).
Proof.
  rewrite normalize_raw_text_cascade.
  pose proof (trimmed_lines_shape raw_text) as Hshape.
  destruct (trimmed_lines raw_text) as [|first others]; [discriminate|].
  assert (Forall (tight isspace) (first :: others)) as Htight
      by (eapply List.Forall_impl; [|exact Hshape]; intros l [H _]; exact H).
  assert (Forall (fun l => forallb (fun c => negb (islinebreak c)) l = true)
                 (first :: others)) as Hlines
      by (eapply List.Forall_impl; [|exact Hshape]; intros l [_ H]; exact H).
  unfold cascade.
  destruct (existsb (char_in TAB) (first :: others)) eqn:Htab.
  - intros _. split.
    + apply join_tight; [discriminate | exact Htight].
    + apply forallb_join; [reflexivity | exact Hlines].
  - destruct ((2 <=? length (first :: others))%nat && negb (char_in COMMA first)) eqn:Hspecial.
    + intros _. apply andb_true_iff in Hspecial as [Hlen _].
      apply Nat.leb_le in Hlen.
      assert (others <> []) as Hne by (destruct others; [simpl in Hlen; lia | discriminate]).
      inversion Htight as [|? ? Hf Ho]; subst.
      inversion Hlines as [|? ? Hf' Ho']; subst.
      split.
      * apply tight_app; [exact Hf|]. now apply join_tight.
      * apply one_line_app. split; [exact Hf'|].
        apply one_line_app. split; [reflexivity|].
        apply forallb_join; [reflexivity | exact Ho'].
    + intros Hin. exfalso.
      assert (char_in TAB (join [COMMA] (map (rstrip_chars [COMMA]) (first :: others)))
              = false) as Hno; [|congruence].
      apply char_in_false. apply forallb_join; [reflexivity|].
      apply List.Forall_map. apply existsb_false_Forall in Htab.
      eapply List.Forall_impl; [|exact Htab]. intros l Hl. cbn beta in Hl |- *.
      apply forallb_rstrip_with. now apply char_in_false.
Qed.

Lemma normalize_raw_text_tab_line (raw_text : Str) :
  existsb (char_in TAB) (trimmed_lines raw_text) = true ->
  char_in TAB (normalize_raw_text raw_text) = true.
Proof.
  intros Htab. rewrite normalize_raw_text_cascade.
  destruct (trimmed_lines raw_text) as [|first others] eqn:E; [discriminate|].
  unfold cascade. rewrite Htab. now apply char_in_join.
Qed.

(** C9 (amended). For every text with a tab inside one of its trimmed
    lines, and more generally for every text whose normal form holds a
    tab, normalising a second time changes nothing. *)
Theorem normalize_raw_text_idempotent_on_tabs (raw_text : Str) :
  existsb (char_in TAB) (trimmed_lines raw_text) = true
  \/ char_in TAB (normalize_raw_text raw_text) = true ->
  normalize_raw_text (normalize_raw_text raw_text) = normalize_raw_text raw_text.
Proof.
  intros H.
  assert (char_in TAB (normalize_raw_text raw_text) = true) as Htab
      by (destruct H; [now apply normalize_raw_text_tab_line | assumption]).
  destruct (normalize_raw_text_with_tab raw_text Htab) as [Ht Hl].
  now apply normalize_raw_text_fixed.
Qed.

(** ** Reading a line of plain fields *)

Lemma process_line_app (d : N) (a b : Str) (self : ReaderObj) :
  process_line d self (a ++ b)
  = match process_line d self a with
    | inl e => inl e
    | inr self' => process_line d self' b
    end.
Proof.
  revert self. induction a as [|c a IH]; intros self; simpl; [reflexivity|].
  destruct (csv_rejects_nul && (c =? 0)); [reflexivity|].
  destruct (parse_process_char d self (Some c)); [reflexivity | apply IH].
Qed.

Lemma in_field_run (d : N) (cs : Str) :
  forall fs f,
    forallb (field_char d) cs = true ->
    N.of_nat (length (f ++ cs)) <= field_limit ->
    process_line d (mkReader IN_FIELD fs f) cs = inr (mkReader IN_FIELD fs (f ++ cs)).
Proof.
  induction cs as [|c cs IH]; intros fs f Hcs Hlen; simpl.
  - now rewrite app_nil_r.
  - simpl in Hcs. apply andb_true_iff in Hcs as [Hc Hcs].
    unfold field_char in Hc.
    apply andb_true_iff in Hc as [Hc Hnul]. apply andb_true_iff in Hc as [Hd Hnl].
    apply negb_true_iff in Hd, Hnl, Hnul.
    rewrite Hnul. unfold parse_process_char. cbn [state]. rewrite Hnl, Hd.
    unfold parse_add_char. cbn [field fields state].
    rewrite length_app in Hlen. simpl in Hlen.
    destruct (field_limit <=? N.of_nat (length f)) eqn:E;
      [apply N.leb_le in E; lia|].
    rewrite IH; [now rewrite <- app_assoc | assumption |].
    rewrite <- app_assoc. simpl. rewrite length_app. simpl. lia.
Qed.

Lemma token_start (d : N) (t : Str) (self : ReaderObj) :
  csv_token d t ->
  state self = START_RECORD \/ state self = START_FIELD ->
  field self = [] ->
  process_line d self t = inr (mkReader IN_FIELD (fields self) t).
Proof.
  intros [Hchars [Hquote [Hne Hlen]]] Hstate Hfield.
  destruct t as [|c t]; [congruence|].
  simpl in Hchars. apply andb_true_iff in Hchars as [Hc Hchars].
  unfold field_char in Hc.
  apply andb_true_iff in Hc as [Hc Hnul]. apply andb_true_iff in Hc as [Hd Hnl].
  apply negb_true_iff in Hd, Hnl, Hnul.
  cbn [startswith] in Hquote. rewrite andb_true_r in Hquote.
  cbn [process_line]. rewrite Hnul.
  assert (parse_process_char d self (Some c)
          = inr (mkReader IN_FIELD (fields self) [c])) as ->.
  { unfold parse_process_char.
    destruct Hstate as [-> | ->]; rewrite ?Hnl; unfold start_field;
      rewrite Hnl, Hquote, Hd; unfold parse_add_char, set_state;
      cbn [field fields state]; rewrite Hfield; reflexivity. }
  apply (in_field_run d t (fields self) [c]); assumption.
Qed.

Lemma separator_step (d : N) (fs : list Str) (f : Str) (rest : Str) :
  separator d ->
  process_line d (mkReader IN_FIELD fs f) (d :: rest)
  = process_line d (mkReader START_FIELD (fs ++ [f]) []) rest.
Proof.
  intros Hd. cbn [process_line].
  assert ((d =? 0) = false /\ is_crnl d = false) as [H0 Hnl]
      by (destruct Hd as [-> | ->]; split; reflexivity).
  rewrite H0, andb_false_r. unfold parse_process_char. cbn [state].
  rewrite Hnl, N.eqb_refl. reflexivity.
Qed.

(** A line of plain fields is read as one record: the fields. *)
Lemma tokens_record (d : N) (toks : list Str) :
  separator d -> toks <> [] -> Forall (csv_token d) toks ->
  forall self,
    state self = START_RECORD \/ state self = START_FIELD ->
    field self = [] ->
    exists r, process_line d self (join [d] toks) = inr r
              /\ parse_process_char d r None
                 = inr (mkReader START_RECORD (fields self ++ toks) []).
Proof.
  intros Hd. induction toks as [|t toks IH]; [congruence|].
  intros _ Hall self Hstate Hfield.
  inversion Hall as [|? ? Ht Hrest]; subst.
  destruct toks as [|t2 toks].
  - exists (mkReader IN_FIELD (fields self) t). split.
    + now apply token_start.
    + reflexivity.
  - rewrite join_cons by discriminate.
    rewrite process_line_app, (token_start d t self Ht Hstate Hfield).
    change ([d] ++ join [d] (t2 :: toks)) with (d :: join [d] (t2 :: toks)).
    rewrite separator_step by assumption.
    destruct (IH ltac:(discriminate) Hrest
                 (mkReader START_FIELD (fields self ++ [t]) []))
      as [r [Hrun Heol]]; [right; reflexivity | reflexivity |].
    exists r. split; [exact Hrun|].
    rewrite Heol. cbn [fields]. now rewrite <- app_assoc.
Qed.

Lemma readlines_from_one (l cur : Str) :
  forallb (fun c => negb (c =? LF)) l = true ->
  readlines_from cur l = match cur ++ l with [] => [] | _ => [cur ++ l] end.
Proof.
  revert cur. induction l as [|c l IH]; intros cur Hl; simpl.
  - rewrite app_nil_r. reflexivity.
  - simpl in Hl. apply andb_true_iff in Hl as [Hc Hl].
    apply negb_true_iff in Hc. rewrite Hc, IH by assumption.
    rewrite <- app_assoc. reflexivity.
Qed.

Lemma csv_token_no_LF (d : N) (t : Str) :
  csv_token d t -> forallb (fun c => negb (c =? LF)) t = true.
Proof.
  intros [Hchars _]. rewrite forallb_forall in *. intros c Hc.
  specialize (Hchars c Hc). unfold field_char, is_crnl in Hchars.
  destruct (c =? LF); [|reflexivity].
  rewrite andb_false_r in Hchars. discriminate.
Qed.

Lemma csv_reader_tokens (d : N) (toks : list Str) :
  separator d -> toks <> [] -> Forall (csv_token d) toks ->
  csv_reader (StringIO (join [d] toks)) d = inr [toks].
Proof.
  intros Hd Hne Hall.
  assert (StringIO (join [d] toks) = [join [d] toks]) as ->.
  { unfold StringIO. rewrite readlines_from_one.
    - simpl. destruct (join [d] toks) eqn:E; [|reflexivity].
      exfalso. destruct toks as [|t toks]; [congruence|].
      inversion Hall as [|? ? [_ [_ [Ht _]]] _]; subst.
      destruct toks; [simpl in E; congruence|].
      rewrite join_cons in E by discriminate. destruct t; [congruence | discriminate].
    - apply forallb_join.
      + destruct Hd as [-> | ->]; reflexivity.
      + eapply List.Forall_impl; [|exact Hall]. apply csv_token_no_LF. }
  unfold csv_reader. cbn [reader_records].
  destruct (tokens_record d toks Hd Hne Hall parse_reset) as [r [Hrun Heol]];
    [left; reflexivity | reflexivity |].
  rewrite Hrun, Heol. reflexivity.
Qed.

(** ** Parsing a line of plain fields *)

Lemma join_tokens_nonempty (d : N) (toks : list Str) :
  toks <> [] -> Forall (csv_token d) toks -> nonempty (join [d] toks) = true.
Proof.
  intros Hne Hall. destruct toks as [|t toks]; [congruence|].
  inversion Hall as [|? ? [_ [_ [Ht _]]] _]; subst.
  destruct toks.
  - simpl. now apply nonempty_true.
  - rewrite join_cons by discriminate. destruct t; [congruence | reflexivity].
Qed.

Lemma parse_csv_row_tokens (raw_text : Str) (d : N) (toks : list Str) (a b : Str) :
  separator d -> toks <> [] -> Forall (csv_token d) toks ->
  normalize_raw_text raw_text = join [d] toks ->
  char_in TAB (join [d] toks) = (d =? TAB) ->
  candidate_step None toks = Some [a; b] ->
  parse_csv_row raw_text = Return (Some (row_of (strip a) (strip b)), None).
Proof.
  intros Hd Hne Hall Hnorm Htab Hcand. unfold parse_csv_row.
  rewrite Hnorm, (join_tokens_nonempty d toks Hne Hall). cbn [negb].
  rewrite Htab.
  replace (if d =? TAB then TAB else COMMA) with d
    by (destruct Hd as [-> | ->]; reflexivity).
  rewrite (csv_reader_tokens d toks Hd Hne Hall).
  cbn [List.filter]. rewrite (proj2 (nonempty_true toks) Hne).
  cbn [nonempty negb select_candidate fold_left]. rewrite Hcand. reflexivity.
Qed.

(** ** The trip through a tab-joined line *)

Lemma is_crnl_islinebreak (c : N) : is_crnl c = true -> islinebreak c = true.
Proof.
  unfold is_crnl. intros H. apply orb_true_iff in H as [H | H];
    apply N.eqb_eq in H; subst; reflexivity.
Qed.

Lemma survives_csv_token (v : Str) :
  survives_tab_line v = true -> csv_token TAB v /\ one_line v.
Proof.
  unfold survives_tab_line. rewrite !andb_true_iff, !negb_true_iff, nonempty_true.
  intros [[[[[Hne Htab] Hlb] Hq] Hlen] Hnul].
  assert (one_line v) as Hone.
  { unfold one_line. apply forallb_forall. intros c Hc.
    destruct (islinebreak c) eqn:E; [|reflexivity].
    assert (existsb islinebreak v = true) by (apply existsb_exists; eauto).
    congruence. }
  split; [|exact Hone]. repeat split; try assumption; [|now apply N.leb_le].
  apply forallb_forall. intros c Hc. unfold field_char.
  apply char_in_false in Htab. unfold one_line in Hone.
  rewrite forallb_forall in Htab, Hone.
  rewrite (Htab c Hc). cbn [andb].
  destruct (is_crnl c) eqn:E.
  { apply is_crnl_islinebreak in E. specialize (Hone c Hc). now rewrite E in Hone. }
  cbn [negb andb]. apply negb_true_iff.
  destruct csv_rejects_nul; [|reflexivity]. cbn [andb] in Hnul |- *.
  apply char_in_false in Hnul. rewrite forallb_forall in Hnul.
  now apply negb_true_iff, (Hnul c Hc).
Qed.

Lemma trimmed_value_tight (v : Str) : strip v = v -> v <> [] -> tight isspace v.
Proof.
  intros Hs Hne. destruct (strip_result v) as [E | Ht]; congruence.
Qed.

Lemma row_of_lookup (row : Row) (name address : Str) :
  dom row = list_to_set CSV_HEADERS ->
  row !! str "Customer Name" = Some name ->
  row !! str "Customer Address" = Some address ->
  row_of name address = row.
Proof.
  intros Hdom Hn Ha. apply map_eq. intros k. unfold row_of.
  destruct (decide (str "Customer Address" = k)) as [<- | Hka].
  { now rewrite lookup_insert_eq. }
  rewrite lookup_insert_ne by assumption.
  destruct (decide (str "Customer Name" = k)) as [<- | Hkn].
  { now rewrite lookup_insert_eq. }
  rewrite lookup_insert_ne, lookup_empty by assumption.
  symmetry. apply not_elem_of_dom. rewrite Hdom. unfold CSV_HEADERS. set_solver.
Qed.

Lemma extracted_row_values (row : Row) :
  is_ExtractedRow row ->
  exists name address,
    row !! str "Customer Name" = Some name
    /\ row !! str "Customer Address" = Some address
    /\ strip name = name /\ strip address = address.
Proof.
  intros [Hdom Hval].
  assert (is_Some (row !! str "Customer Name")) as [name Hn]
      by (apply elem_of_dom; rewrite Hdom; unfold CSV_HEADERS; set_solver).
  assert (is_Some (row !! str "Customer Address")) as [address Ha]
      by (apply elem_of_dom; rewrite Hdom; unfold CSV_HEADERS; set_solver).
  exists name, address. repeat split; eauto.
Qed.

(** C4 (amended). An [ExtractedRow] whose values are not empty, hold no
    tab and no line boundary, do not open with a double quote, fit the
    reader's field limit (and hold no NUL where the reader refuses it),
    and are not, lower-cased, the lower-cased field names, comes back
    unchanged from [parse_csv_row] applied to its values joined with tabs
    in schema order. *)
Theorem tab_joined_line_round_trip (row : Row) :
  is_ExtractedRow row ->
  Forall (fun header => survives_tab_line (dict_get row header []) = true)
         CSV_HEADERS ->
  map lower (map (fun header => dict_get row header []) CSV_HEADERS)
  <> map lower CSV_HEADERS ->
  parse_csv_row (tab_joined_line row) = Return (Some row, None).
Proof.
  intros Hrow Hsurv Hecho.
  destruct (extracted_row_values row Hrow)
    as [name [address [Hn [Ha [Hsn Hsa]]]]].
  destruct Hrow as [Hdom _].
  assert (dict_get row (str "Customer Name") [] = name) as Hg1
      by (unfold dict_get; now rewrite Hn).
  assert (dict_get row (str "Customer Address") [] = address) as Hg2
      by (unfold dict_get; now rewrite Ha).
  unfold tab_joined_line. unfold CSV_HEADERS in Hsurv, Hecho |- * at 1.
  cbn [map] in Hecho |- *. rewrite Hg1, Hg2 in Hecho |- *.
  pose proof (List.Forall_inv Hsurv) as Hs1.
  pose proof (List.Forall_inv (List.Forall_inv_tail Hsurv)) as Hs2.
  cbn beta in Hs1, Hs2. rewrite Hg1 in Hs1. rewrite Hg2 in Hs2.
  apply survives_csv_token in Hs1 as [Ht1 Hl1], Hs2 as [Ht2 Hl2].
  assert (name <> [] /\ address <> []) as [Hne1 Hne2]
      by (split; [apply Ht1 | apply Ht2]).
  rewrite <- (row_of_lookup row name address Hdom Hn Ha).
  replace (row_of name address) with (row_of (strip name) (strip address))
    by now rewrite Hsn, Hsa.
  apply (parse_csv_row_tokens _ TAB [name; address]).
  - left. reflexivity.
  - discriminate.
  - constructor; [assumption | constructor; [assumption | constructor]].
  - apply normalize_raw_text_fixed.
    + apply tight_app; now apply trimmed_value_tight.
    + apply one_line_app. split; [assumption|].
      apply one_line_app. split; [reflexivity | assumption].
    + cbn [join]. rewrite !char_in_app. cbn. apply orb_true_r.
  - cbn [join]. rewrite !char_in_app. cbn. apply orb_true_r.
  - unfold candidate_step. cbn [map]. rewrite Hsn, Hsa.
    cbn [nonempty negb]. rewrite bool_decide_eq_false_2 by exact Hecho.
    reflexivity.
Qed.

(** ** A header line followed by a data line *)

Lemma nonblank_core (t : Str) :
  nonempty (strip t) = true ->
  exists w c w',
    t = w ++ c ++ w'
    /\ forallb isspace w = true /\ forallb isspace w' = true
    /\ tight isspace c
    /\ strip t = c
    /\ lstrip_with isspace t = c ++ w'
    /\ rstrip_with isspace t = w ++ c.
Proof.
  intros Hne.
  destruct (tight_core isspace t) as [Hb | [w [c [w' [-> [Hw [Hw' Ht]]]]]]].
  - rewrite (strip_blank t Hb) in Hne. discriminate.
  - exists w, c, w'. repeat split; try assumption; try apply Ht.
    + now apply strip_core.
    + now apply lstrip_with_tight.
    + now apply rstrip_with_tight.
Qed.

Lemma strip_pair (a mid b : Str) :
  nonempty (strip a) = true -> nonempty (strip b) = true ->
  strip (a ++ mid ++ b) = lstrip_with isspace a ++ mid ++ rstrip_with isspace b.
Proof.
  intros Ha Hb.
  destruct (nonblank_core a Ha) as [wa [ca [wa' [-> [Hwa [Hwa' [Hta [_ [-> _]]]]]]]]].
  destruct (nonblank_core b Hb) as [wb [cb [wb' [-> [Hwb [Hwb' [Htb [_ [_ ->]]]]]]]]].
  replace ((wa ++ ca ++ wa') ++ mid ++ wb ++ cb ++ wb')
    with (wa ++ (ca ++ (wa' ++ mid ++ wb) ++ cb) ++ wb')
    by (rewrite <- !app_assoc; reflexivity).
  rewrite strip_core by (try assumption; now apply tight_app).
  rewrite <- !app_assoc. reflexivity.
Qed.

Lemma strip_lstrip (t : Str) : strip (lstrip_with isspace t) = strip t.
Proof. unfold strip, lstrip_with. now rewrite drop_while_idem. Qed.

Lemma strip_rstrip (t : Str) : strip (rstrip_with isspace t) = strip t.
Proof.
  destruct (nonempty (strip t)) eqn:Hne.
  - destruct (nonblank_core t Hne) as [w [c [w' [_ [Hw [_ [Ht [-> [_ ->]]]]]]]]].
    replace (w ++ c) with (w ++ c ++ []) by now rewrite app_nil_r.
    now apply strip_core.
  - apply nonempty_false in Hne. rewrite Hne.
    destruct (tight_core isspace t) as [Hb | [w [c [w' [-> [Hw [Hw' Ht]]]]]]].
    + apply strip_blank, forallb_rstrip_with, Hb.
    + rewrite strip_core in Hne by assumption.
      now apply tight_nonempty in Ht.
Qed.

Lemma one_line_firstn (l : Str) : one_line l -> one_line (firstn 1 l).
Proof.
  unfold one_line. destruct l as [|c l]; [reflexivity|]. simpl.
  intros H. apply andb_true_iff in H as [-> _]. reflexivity.
Qed.

(** Two non-blank lines on either side of a line boundary are the two
    trimmed lines of the text. *)
Lemma trimmed_lines_two (A B : Str) (nl : N) :
  one_line A -> one_line B ->
  nonempty (strip A) = true -> nonempty (strip B) = true ->
  islinebreak nl = true ->
  trimmed_lines (A ++ nl :: B) = [strip A; strip B].
Proof.
  intros HA HB HnA HnB Hnl.
  destruct (nonblank_core A HnA) as [wa [ca [wa' [-> [Hwa [Hwa' [Hta [-> _]]]]]]]].
  destruct (nonblank_core B HnB) as [wb [cb [wb' [-> [Hwb [Hwb' [Htb [-> _]]]]]]]].
  unfold trimmed_lines.
  replace ((wa ++ ca ++ wa') ++ nl :: wb ++ cb ++ wb')
    with (wa ++ (ca ++ (wa' ++ nl :: wb) ++ cb) ++ wb')
    by (rewrite <- !app_assoc; reflexivity).
  rewrite strip_core by (try assumption; now apply tight_app).
  replace (ca ++ (wa' ++ nl :: wb) ++ cb) with ((ca ++ wa') ++ nl :: (wb ++ cb))
    by (rewrite <- !app_assoc; reflexivity).
  apply one_line_app in HA as [_ HA]. apply one_line_app in HA as [Hca Hwa'l].
  apply one_line_app in HB as [Hwbl HB]. apply one_line_app in HB as [Hcb _].
  unfold splitlines. rewrite splitlines_from_break;
    [| apply one_line_app; auto | assumption
     | apply one_line_firstn, one_line_app; auto].
  fold (splitlines (wb ++ cb)).
  rewrite splitlines_one_line;
    [| apply one_line_app; auto
     | destruct wb; [apply (tight_nonempty _ _ Htb) | discriminate]].
  cbn [app map].
  change (ca ++ wa') with ([] ++ ca ++ wa').
  rewrite (strip_core [] ca wa') by (try assumption; reflexivity).
  replace (wb ++ cb) with (wb ++ cb ++ []) by now rewrite app_nil_r.
  rewrite (strip_core wb cb []) by (try assumption; reflexivity).
  cbn [List.filter].
  rewrite (proj2 (nonempty_true ca) (tight_nonempty _ _ Hta)).
  rewrite (proj2 (nonempty_true cb) (tight_nonempty _ _ Htb)).
  reflexivity.
Qed.

Lemma length_drop_while (p : N -> bool) (s : Str) :
  (length (drop_while p s) <= length s)%nat.
Proof.
  induction s as [|c s IH]; simpl; [lia|]. destruct (p c); simpl; lia.
Qed.

Lemma length_rstrip_with (p : N -> bool) (s : Str) :
  (length (rstrip_with p s) <= length s)%nat.
Proof.
  unfold rstrip_with. rewrite length_rev, <- (length_rev s).
  apply length_drop_while.
Qed.

(** What a part of a plain token is good for, once it is not empty. *)
Lemma plain_token_part (d : N) (t t' : Str) :
  plain_token d t = true ->
  (forall P, forallb P t = true -> forallb P t' = true) ->
  t' <> [] -> (length t' <= length t)%nat ->
  csv_token d t' /\ one_line t' /\ char_in TAB t' = false /\ char_in d t' = false.
Proof.
  unfold plain_token. rewrite !andb_true_iff.
  intros [[Hchars _] Hlen] Hsub Hne Hle.
  apply Hsub in Hchars. apply N.leb_le in Hlen.
  assert (forall c, In c t' ->
            (c =? TAB) = false /\ (c =? d) = false /\ (c =? QUOTE) = false
            /\ islinebreak c = false /\ csv_rejects_nul && (c =? 0) = false) as Hc.
  { intros c Hin. rewrite forallb_forall in Hchars. specialize (Hchars c Hin).
    rewrite !andb_true_iff, !negb_true_iff in Hchars. tauto. }
  repeat split.
  - apply forallb_forall. intros c Hin. destruct (Hc c Hin) as [_ [Hd [_ [Hlb Hnul]]]].
    unfold field_char. rewrite Hd, Hnul.
    destruct (is_crnl c) eqn:E; [|reflexivity].
    apply is_crnl_islinebreak in E. congruence.
  - destruct t' as [|c t']; [congruence|]. cbn [startswith].
    destruct (Hc c (or_introl eq_refl)) as [_ [_ [-> _]]]. reflexivity.
  - exact Hne.
  - lia.
  - apply forallb_forall. intros c Hin. destruct (Hc c Hin) as [_ [_ [_ [-> _]]]].
    reflexivity.
  - apply char_in_false, forallb_forall. intros c Hin.
    destruct (Hc c Hin) as [-> _]. reflexivity.
  - apply char_in_false, forallb_forall. intros c Hin.
    destruct (Hc c Hin) as [_ [-> _]]. reflexivity.
Qed.

Lemma plain_token_nonblank (d : N) (t : Str) :
  plain_token d t = true -> nonempty (strip t) = true.
Proof. unfold plain_token. rewrite !andb_true_iff. tauto. Qed.

Lemma plain_token_whole (d : N) (t : Str) :
  plain_token d t = true ->
  csv_token d t /\ one_line t /\ char_in TAB t = false /\ char_in d t = false.
Proof.
  intros H. apply (plain_token_part d t t H); [auto | | lia].
  apply plain_token_nonblank in H. intros ->. discriminate.
Qed.

Lemma plain_token_lstrip (d : N) (t : Str) :
  plain_token d t = true ->
  csv_token d (lstrip_with isspace t) /\ one_line (lstrip_with isspace t)
  /\ char_in TAB (lstrip_with isspace t) = false
  /\ char_in d (lstrip_with isspace t) = false.
Proof.
  intros H. apply (plain_token_part d t _ H).
  - intros P. apply forallb_lstrip_with.
  - destruct (nonblank_core t (plain_token_nonblank d t H))
      as [w [c [w' [_ [_ [_ [Ht [_ [-> _]]]]]]]]].
    apply tight_nonempty in Ht. destruct c; [congruence | discriminate].
  - apply length_drop_while.
Qed.

Lemma plain_token_rstrip (d : N) (t : Str) :
  plain_token d t = true ->
  csv_token d (rstrip_with isspace t) /\ one_line (rstrip_with isspace t)
  /\ char_in TAB (rstrip_with isspace t) = false
  /\ char_in d (rstrip_with isspace t) = false.
Proof.
  intros H. apply (plain_token_part d t _ H).
  - intros P. apply forallb_rstrip_with.
  - destruct (nonblank_core t (plain_token_nonblank d t H))
      as [w [c [w' [_ [_ [_ [Ht [_ [_ ->]]]]]]]]].
    apply tight_nonempty in Ht. destruct w; [|discriminate].
    destruct c; [congruence | discriminate].
  - apply length_rstrip_with.
Qed.

(** A text free of the characters of [p], and not empty, is tight. *)
Lemma free_tight (p : N -> bool) (s : Str) :
  s <> [] -> forallb (fun c => negb (p c)) s = true -> tight p s.
Proof.
  intros Hne Hfree. rewrite forallb_forall in Hfree. split.
  - destruct s as [|c s]; [congruence|]. exists c, s. split; [reflexivity|].
    apply negb_true_iff, Hfree. now left.
  - destruct (exists_last Hne) as [t [c ->]]. exists t, c. split; [reflexivity|].
    apply negb_true_iff, Hfree, in_or_app. right. now left.
Qed.

Lemma rstrip_comma_free (a b : Str) :
  a <> [] -> b <> [] -> char_in COMMA a = false -> char_in COMMA b = false ->
  rstrip_chars [COMMA] (a ++ [COMMA] ++ b) = a ++ [COMMA] ++ b.
Proof.
  intros Ha Hb Hfa Hfb. unfold rstrip_chars.
  assert (forall s, s <> [] -> char_in COMMA s = false ->
                    tight (fun c => char_in c [COMMA]) s) as Htight.
  { intros s Hs Hf. apply free_tight; [exact Hs|].
    apply char_in_false in Hf. rewrite forallb_forall in *.
    intros c Hc. specialize (Hf c Hc). cbn. now rewrite orb_false_r. }
  pose proof (rstrip_with_tight (fun c => char_in c [COMMA]) []
                (a ++ [COMMA] ++ b) []) as H.
  rewrite app_nil_r in H. apply H; [reflexivity|].
  apply tight_app; now apply Htight.
Qed.

(** The normal form of a two-field line over a two-field line, both
    delimited by [d]: the four trimmed-at-the-ends fields on one line. *)
Lemma normalize_two_delimited_lines (d nl : N) (h1 h2 v1 v2 : Str) :
  separator d -> islinebreak nl = true ->
  plain_token d h1 = true -> plain_token d h2 = true ->
  plain_token d v1 = true -> plain_token d v2 = true ->
  normalize_raw_text (h1 ++ [d] ++ h2 ++ [nl] ++ v1 ++ [d] ++ v2)
  = join [d] [lstrip_with isspace h1; rstrip_with isspace h2;
              lstrip_with isspace v1; rstrip_with isspace v2].
Proof.
  intros Hd Hnl Hh1 Hh2 Hv1 Hv2.
  pose proof (plain_token_nonblank d _ Hh1) as Hb1.
  pose proof (plain_token_nonblank d _ Hh2) as Hb2.
  pose proof (plain_token_nonblank d _ Hv1) as Hb3.
  pose proof (plain_token_nonblank d _ Hv2) as Hb4.
  destruct (plain_token_whole d _ Hh1) as [_ [Ho1 _]].
  destruct (plain_token_whole d _ Hh2) as [_ [Ho2 _]].
  destruct (plain_token_whole d _ Hv1) as [_ [Ho3 _]].
  destruct (plain_token_whole d _ Hv2) as [_ [Ho4 _]].
  destruct (plain_token_lstrip d _ Hh1) as [[_ [_ [Hn1 _]]] [_ [Ht1 Hd1]]].
  destruct (plain_token_rstrip d _ Hh2) as [[_ [_ [Hn2 _]]] [_ [Ht2 Hd2]]].
  destruct (plain_token_lstrip d _ Hv1) as [[_ [_ [Hn3 _]]] [_ [Ht3 Hd3]]].
  destruct (plain_token_rstrip d _ Hv2) as [[_ [_ [Hn4 _]]] [_ [Ht4 Hd4]]].
  assert (one_line [d]) as Hod by (destruct Hd as [-> | ->]; reflexivity).
  replace (h1 ++ [d] ++ h2 ++ [nl] ++ v1 ++ [d] ++ v2)
    with ((h1 ++ [d] ++ h2) ++ nl :: (v1 ++ [d] ++ v2))
    by (rewrite <- !app_assoc; reflexivity).
  rewrite normalize_raw_text_cascade, trimmed_lines_two;
    rewrite ?strip_pair by assumption;
    try (apply one_line_app; split; [assumption | apply one_line_app; split; assumption]);
    try assumption;
    try (destruct (lstrip_with isspace h1); reflexivity);
    try (destruct (lstrip_with isspace v1); reflexivity).
  unfold cascade. destruct Hd as [-> | ->].
  - cbn [existsb]. rewrite !char_in_app.
    replace (char_in TAB [TAB]) with true by reflexivity.
    rewrite !orb_true_r. cbn [orb join]. rewrite <- !app_assoc. reflexivity.
  - cbn [existsb]. rewrite !char_in_app, Ht1, Ht2, Ht3, Ht4.
    replace (char_in TAB [COMMA]) with false by reflexivity. cbn [orb].
    replace (char_in COMMA [COMMA]) with true by reflexivity.
    rewrite orb_true_r, andb_false_r. cbn [map].
    rewrite !rstrip_comma_free by assumption.
    cbn [join]. rewrite <- !app_assoc. reflexivity.
Qed.

Lemma row_of_literal (name address : Str) :
  row_of name address
  = {[ str "Customer Name" := name; str "Customer Address" := address ]}.
Proof.
  unfold row_of. rewrite insert_insert_ne by discriminate.
  now rewrite insert_empty.
Qed.

(** X28. When a header echo and a data row stand on two lines
    and use the same delimiter (both tabs, or both commas), and their
    fields are plain (free of tabs, of the delimiter, of double quotes and
    of line boundaries, and not blank), [parse_csv_row] returns the
    trimmed fields of the data row under the field names, and nothing of
    the header.  The input "Customer Name, Customer Address" over
    "Jane Doe, 5 Oak Ave" is such a text.  (The two lines are merged
    into one row before the reader runs: the echo goes because only the
    last two fields of that row are kept, not through the header test.) *)
Theorem header_echo_then_data_row (d nl : N) (h1 h2 v1 v2 : Str) :
  separator d -> islinebreak nl = true ->
  plain_token d h1 = true -> plain_token d h2 = true ->
  plain_token d v1 = true -> plain_token d v2 = true ->
  map lower [strip h1; strip h2] = map lower CSV_HEADERS ->
  parse_csv_row (h1 ++ [d] ++ h2 ++ [nl] ++ v1 ++ [d] ++ v2)
  = Return (Some {[ str "Customer Name" := strip v1;
                    str "Customer Address" := strip v2 ]}, None).
Proof.
  intros Hd Hnl Hh1 Hh2 Hv1 Hv2 _.
  rewrite <- row_of_literal.
  replace (row_of (strip v1) (strip v2))
    with (row_of (strip (strip (lstrip_with isspace v1)))
                 (strip (strip (rstrip_with isspace v2))))
    by now rewrite !strip_idem, strip_lstrip, strip_rstrip.
  destruct (plain_token_lstrip d _ Hh1) as [Hc1 [_ [Ht1 _]]].
  destruct (plain_token_rstrip d _ Hh2) as [Hc2 [_ [Ht2 _]]].
  destruct (plain_token_lstrip d _ Hv1) as [Hc3 [_ [Ht3 _]]].
  destruct (plain_token_rstrip d _ Hv2) as [Hc4 [_ [Ht4 _]]].
  apply (parse_csv_row_tokens _ d
           [lstrip_with isspace h1; rstrip_with isspace h2;
            lstrip_with isspace v1; rstrip_with isspace v2]).
  - exact Hd.
  - discriminate.
  - repeat (constructor; [assumption|]). constructor.
  - now apply normalize_two_delimited_lines.
  - cbn [join]. rewrite !char_in_app, Ht1, Ht2, Ht3, Ht4.
    destruct Hd as [-> | ->]; reflexivity.
  - unfold candidate_step. cbn [map nonempty negb].
    rewrite bool_decide_eq_false_2
      by (intros H; apply (f_equal length) in H; discriminate H).
    reflexivity.
Qed.

(** * Further properties of the pipeline *)

(** ** What the normaliser and the parser always give *)

Lemma normalize_raw_text_one_line (raw_text : Str) :
  one_line (normalize_raw_text raw_text).
Proof.
  rewrite normalize_raw_text_cascade.
  pose proof (trimmed_lines_shape raw_text) as Hshape.
  destruct (trimmed_lines raw_text) as [|first others]; [reflexivity|].
  assert (Forall (fun l => forallb (fun c => negb (islinebreak c)) l = true)
                 (first :: others)) as Hlines
      by (eapply List.Forall_impl; [|exact Hshape]; intros l [_ H]; exact H).
  unfold cascade.
  destruct (existsb (char_in TAB) (first :: others)).
  - apply forallb_join; [reflexivity | exact Hlines].
  - destruct (_ && _).
    + inversion Hlines as [|? ? Hf Ho]; subst.
      apply one_line_app. split; [exact Hf|].
      apply one_line_app. split; [reflexivity|].
      apply forallb_join; [reflexivity | exact Ho].
    + apply forallb_join; [reflexivity|].
      apply List.Forall_map. eapply List.Forall_impl; [|exact Hlines].
      intros l Hl. cbn beta in Hl |- *. now apply forallb_rstrip_with.
Qed.

(** X1. Whatever the text, [normalize_raw_text] returns a single line:
    no line boundary is left in it. *)
Theorem normalize_raw_text_single_line (raw_text : Str) :
  existsb islinebreak (normalize_raw_text raw_text) = false.
Proof.
  pose proof (normalize_raw_text_one_line raw_text) as Hone.
  unfold one_line in Hone. rewrite forallb_forall in Hone.
  destruct (existsb islinebreak (normalize_raw_text raw_text)) eqn:E; [|reflexivity].
  apply existsb_exists in E as [c [Hin Hc]].
  specialize (Hone c Hin). rewrite Hc in Hone. discriminate.
Qed.

Lemma two_columns (candidate : list Str) :
  length candidate = length CSV_HEADERS -> exists a b, candidate = [a; b].
Proof.
  destruct candidate as [|a [|b [|c rest]]]; try discriminate.
  intros _. eauto.
Qed.

(** [parse_csv_row] never raises, and returns a row or an error. *)
Lemma parse_csv_row_row_or_error (raw_text : Str) :
  (exists row, parse_csv_row raw_text = Return (Some row, None))
  \/ (exists e, parse_csv_row raw_text = Return (None, Some e) /\ e <> []).
Proof.
  pose proof (parse_csv_row_result raw_text) as R.
  destruct (parse_csv_row raw_text) as [[[row|] err] | e] eqn:H.
  - left. exists row. apply parsed_row_shape in H as [_ ->]. reflexivity.
  - right. apply parse_error_nonempty in H as [msg [-> Hne]]. eauto.
  - exfalso. inversion R as [ | | | | | e' candidate Hlen Hfill]; subst.
    destruct (two_columns candidate Hlen) as [a [b ->]]. discriminate Hfill.
Qed.

(** X3. An answer made of white space only (or empty) is reported as
    "empty response". *)
Theorem parse_csv_row_blank (raw_text : Str) :
  forallb isspace raw_text = true ->
  parse_csv_row raw_text = Return (None, Some (str "empty response")).
Proof.
  intros Hblank. unfold parse_csv_row, normalize_raw_text.
  rewrite (strip_blank raw_text Hblank). reflexivity.
Qed.

(** X4. [validate_csv_row] has nothing against a value that is missing
    or blank: a row in which every field of [CSV_HEADERS] is absent or
    white space only passes, whatever else the row holds. *)
Theorem validate_csv_row_blank_values (row : Row) :
  (forall header, In header CSV_HEADERS ->
                  forallb isspace (dict_get row header []) = true) ->
  validate_csv_row row = None.
Proof.
  intros Hblank. apply validate_headers_none. apply List.Forall_forall.
  intros header Hin [Hne _]. apply Hne, strip_blank, Hblank, Hin.
Qed.

(** ** What the retry loop always does *)

(** The three ways a turn of the loop can go: the call raises; the
    answer parses and passes, and is returned; the answer is turned down
    and the loop goes round again with the reason. *)
Lemma attempts_turn_exact (image : Image) (remaining : nat) (attempt : Z)
    (last_error : option Str) (current_prompt : Str) (model : Model) :
  let prompt := prompt_of attempt last_error current_prompt in
  let model1 := fst (query model image prompt) in
  let result := snd (query model image prompt) in
  (exists e,
      result = Raise e
      /\ attempts image (S remaining) attempt last_error current_prompt model
         = (model1, [(prompt, result)], Left_function (Raise e)))
  \/ (exists response row,
         result = Return response
         /\ parse_csv_row (strip (dict_get response (str "answer") []))
            = Return (Some row, None)
         /\ validate_csv_row row = None
         /\ attempts image (S remaining) attempt last_error current_prompt model
            = (model1, [(prompt, result)],
               Left_function
                 (Return (row, strip (dict_get response (str "answer") [])))))
  \/ (exists response reason,
         result = Return response
         /\ answer_fails_with (strip (dict_get response (str "answer") [])) reason
         /\ attempts image (S remaining) attempt last_error current_prompt model
            = (let '(model2, calls, exit) :=
                 attempts image remaining (attempt + 1)%Z (Some reason) prompt model1 in
               (model2, (prompt, result) :: calls, exit))).
Proof.
  intros prompt model1 result. subst model1 result.
  destruct (query model image prompt) as [model1 [response | e]] eqn:Hq; cbn [fst snd].
  2: { left. exists e. split; [reflexivity|].
       unfold prompt, prompt_of in Hq. cbn [attempts]. now rewrite Hq. }
  right.
  destruct (parse_csv_row_row_or_error (strip (dict_get response (str "answer") [])))
    as [[row Hparse] | [e [Hparse Hne]]].
  - destruct (validate_csv_row row) as [reason|] eqn:Hval.
    + right. exists response, reason. split; [reflexivity|].
      assert (answer_fails_with (strip (dict_get response (str "answer") [])) reason)
        as Hfail by (right; eauto).
      split; [exact Hfail|].
      exact (attempts_turn_fails image remaining attempt last_error current_prompt
               model model1 response reason Hq Hfail).
    + left. exists response, row. repeat split; try assumption.
      unfold prompt, prompt_of in Hq |- *. cbn [attempts]. rewrite Hq, Hparse.
      rewrite bool_decide_eq_false_2 by (eapply parsed_row_not_empty; eassumption).
      now rewrite Hval.
  - right. exists response, e. split; [reflexivity|].
    assert (answer_fails_with (strip (dict_get response (str "answer") [])) e)
      as Hfail by (left; assumption).
    split; [exact Hfail|].
    exact (attempts_turn_fails image remaining attempt last_error current_prompt
             model model1 response e Hq Hfail).
Qed.

Lemma attempts_calls_bound (image : Image) (remaining : nat) :
  forall attempt last_error current_prompt model,
    (length (snd (fst (attempts image remaining attempt last_error
                                current_prompt model))) <= remaining)%nat.
Proof.
  induction remaining as [|remaining IH]; intros attempt last_error current_prompt model.
  - simpl. lia.
  - destruct (attempts_turn_exact image remaining attempt last_error current_prompt model)
      as [[e [_ ->]] | [[response [row [_ [_ [_ ->]]]]] | [response [reason [_ [_ ->]]]]]];
      cbn [fst snd length]; try lia.
    specialize (IH (attempt + 1)%Z (Some reason)
                   (prompt_of attempt last_error current_prompt)
                   (fst (query model image (prompt_of attempt last_error current_prompt)))).
    destruct (attempts image remaining _ _ _ _) as [[model2 calls] exit].
    cbn [fst snd length] in IH |- *. lia.
Qed.

(** X5. Whatever the client answers or raises, [request_csv_row] calls
    [model.query] at most [max_attempts] times (never, for a budget that
    is not positive). *)
Theorem request_csv_row_within_budget (image : Image) (model : Model)
    (max_attempts : Z) :
  (Z.of_nat (length (snd (fst (request_csv_row image model max_attempts))))
   <= Z.max 0 max_attempts)%Z.
Proof.
  unfold request_csv_row.
  pose proof (attempts_calls_bound image (Z.to_nat max_attempts) 0%Z None
                CSV_PROMPT model) as H.
  destruct (attempts image _ _ _ _ _) as [[model' calls] exit].
  cbn [fst snd] in H. destruct exit; cbn [fst snd]; lia.
Qed.

Lemma attempts_returned (image : Image) (remaining : nat) :
  forall attempt last_error current_prompt model model' calls row raw_csv,
    attempts image remaining attempt last_error current_prompt model
    = (model', calls, Left_function (Return (row, raw_csv))) ->
    parse_csv_row raw_csv = Return (Some row, None)
    /\ validate_csv_row row = None
    /\ exists prompt response,
         last calls = Some (prompt, Return response)
         /\ raw_csv = strip (dict_get response (str "answer") []).
Proof.
  induction remaining as [|remaining IH];
    intros attempt last_error current_prompt model model' calls row raw_csv.
  - simpl. discriminate.
  - destruct (attempts_turn_exact image remaining attempt last_error current_prompt model)
      as [[e [_ ->]] | [[response [row' [Hres [Hparse [Hval ->]]]]]
                       | [response [reason [_ [_ ->]]]]]].
    + discriminate.
    + intros [= <- <- <- <-]. repeat split; try assumption.
      eexists. exists response. rewrite Hres. split; reflexivity.
    + destruct (attempts image remaining _ _ _ _) as [[model2 calls'] exit] eqn:Hrest.
      intros [= <- <- ->].
      destruct (IH _ _ _ _ _ _ _ _ Hrest) as [Hparse [Hval [p [r [Hlast Hraw]]]]].
      repeat split; try assumption. exists p, r. split; [|exact Hraw].
      destruct calls' as [|c calls']; [discriminate | exact Hlast].
Qed.

(** X6. A row that [request_csv_row] returns is one that
    [parse_csv_row] produced from the returned raw text and that
    [validate_csv_row] accepted, and the raw text is the trimmed answer of
    the last call made. *)
Theorem request_csv_row_returns_valid_row (image : Image) (model model' : Model)
    (max_attempts : Z) (calls : list Call) (row : Row) (raw_csv : Str) :
  request_csv_row image model max_attempts = (model', calls, Return (row, raw_csv)) ->
  parse_csv_row raw_csv = Return (Some row, None)
  /\ validate_csv_row row = None
  /\ exists prompt response,
       last calls = Some (prompt, Return response)
       /\ raw_csv = strip (dict_get response (str "answer") []).
Proof.
  unfold request_csv_row.
  destruct (attempts image _ _ _ _ _) as [[model2 calls'] exit] eqn:Hrun.
  destruct exit as [o | last_error]; [|discriminate].
  intros [= <- <- ->]. exact (attempts_returned _ _ _ _ _ _ _ _ _ _ Hrun).
Qed.

Lemma attempts_prompts (image : Image) (remaining : nat) :
  forall attempt last_error current_prompt model model' calls exit,
    attempts image remaining attempt last_error current_prompt model
    = (model', calls, exit) ->
    (0 <= attempt)%Z ->
    (forall prompt result,
        calls !! 0%nat = Some (prompt, result) ->
        prompt = prompt_of attempt last_error current_prompt)
    /\ (forall i prompt1 result1 prompt2 result2,
           calls !! i = Some (prompt1, result1) ->
           calls !! S i = Some (prompt2, result2) ->
           exists response reason,
             result1 = Return response
             /\ answer_fails_with (strip (dict_get response (str "answer") [])) reason
             /\ prompt2 = retry_prompt (Some reason)).
Proof.
  induction remaining as [|remaining IH];
    intros attempt last_error current_prompt model model' calls exit.
  - simpl. intros [= <- <- <-] _. split; intros; discriminate.
  - destruct (attempts_turn_exact image remaining attempt last_error current_prompt model)
      as [[e [_ ->]] | [[response [row [_ [_ [_ ->]]]]]
                       | [response [reason [Hres [Hfail ->]]]]]].
    + intros [= <- <- <-] _. split.
      * intros prompt result [= <- _]. reflexivity.
      * intros i ? ? ? ? _ H. discriminate H.
    + intros [= <- <- <-] _. split.
      * intros prompt result [= <- _]. reflexivity.
      * intros i ? ? ? ? _ H. discriminate H.
    + destruct (attempts image remaining _ _ _ _) as [[model2 calls'] exit'] eqn:Hrest.
      intros [= <- <- <-] Hattempt.
      destruct (IH _ _ _ _ _ _ _ Hrest ltac:(lia)) as [Hfirst Hchain].
      split.
      * intros prompt result [= <- _]. reflexivity.
      * intros i prompt1 result1 prompt2 result2 H1 H2. destruct i as [|i].
        -- injection H1 as <- <-. cbn in H2.
           exists response, reason. repeat split; try assumption.
           rewrite (Hfirst _ _ H2). unfold prompt_of at 1.
           replace (0 <? attempt + 1)%Z with true by (symmetry; apply Z.ltb_lt; lia).
           reflexivity.
        -- eapply Hchain; [exact H1 | exact H2].
Qed.

(** X7. The first prompt of [request_csv_row] is [CSV_PROMPT]; every
    later prompt follows an answer that was turned down, and is the base
    prompt extended with the reason recorded for that answer alone. *)
Theorem request_csv_row_prompts (image : Image) (model model' : Model)
    (max_attempts : Z) (calls : list Call) (outcome : Outcome (Row * Str)) :
  request_csv_row image model max_attempts = (model', calls, outcome) ->
  (forall prompt result,
      calls !! 0%nat = Some (prompt, result) -> prompt = CSV_PROMPT)
  /\ (forall i prompt1 result1 prompt2 result2,
         calls !! i = Some (prompt1, result1) ->
         calls !! S i = Some (prompt2, result2) ->
         exists response reason,
           result1 = Return response
           /\ answer_fails_with (strip (dict_get response (str "answer") [])) reason
           /\ prompt2 = retry_prompt (Some reason)).
Proof.
  unfold request_csv_row.
  destruct (attempts image _ _ _ _ _) as [[model2 calls'] exit] eqn:Hrun.
  intros Hreq. assert (calls' = calls) as -> by (destruct exit; congruence).
  exact (attempts_prompts _ _ _ _ _ _ _ _ _ Hrun ltac:(lia)).
Qed.

(** ** The errors of the parser *)

Lemma parse_add_char_ok (self : ReaderObj) (c : N) :
  match parse_add_char self c with
  | inl e => e = FieldLimitExceeded
  | inr self' => state self' = state self
  end.
Proof. unfold parse_add_char. destruct (field_limit <=? _); reflexivity. Qed.

(** A character that is no line end takes the reader into a record, or
    keeps it there, unless the field limit stops it. *)
Lemma parse_process_char_in_record (d : N) (self : ReaderObj) (c : N) :
  is_crnl c = false ->
  state self = START_RECORD \/ in_record (state self) = true ->
  match parse_process_char d self (Some c) with
  | inl e => e = FieldLimitExceeded
  | inr self' => in_record (state self') = true
  end.
Proof.
  intros Hc Hst. destruct self as [st fs f]. cbn [state] in Hst.
  destruct st; cbn [in_record] in Hst;
    try (destruct Hst; discriminate);
    unfold parse_process_char, start_field, parse_add_char, set_state,
      parse_save_field;
    cbn [state fields field]; rewrite ?Hc;
    repeat match goal with
      | |- context [if ?b then _ else _] => destruct b
      end;
    reflexivity.
Qed.

Lemma process_line_in_record (d : N) (line : Str) :
  forallb (fun c => negb (is_crnl c)) line = true ->
  forall self,
    state self = START_RECORD \/ in_record (state self) = true ->
    match process_line d self line with
    | inl e => e = FieldLimitExceeded \/ (e = LineContainsNUL /\ csv_rejects_nul = true)
    | inr self' => (line = [] /\ self' = self) \/ in_record (state self') = true
    end.
Proof.
  induction line as [|c line IH]; intros Hline self Hst; cbn [process_line].
  - left. auto.
  - cbn [forallb] in Hline. apply andb_true_iff in Hline as [Hc Hline].
    apply negb_true_iff in Hc.
    destruct csv_rejects_nul eqn:Hnul; cbn [andb].
    + destruct (c =? 0); [right; auto|].
      pose proof (parse_process_char_in_record d self c Hc Hst) as Hstep.
      destruct (parse_process_char d self (Some c)) as [e | self1]; [left; exact Hstep|].
      specialize (IH Hline self1 (or_intror Hstep)).
      destruct (process_line d self1 line) as [e | self2].
      * destruct IH as [-> | [-> _]]; auto.
      * right. destruct IH as [[_ ->] | H]; assumption.
    + pose proof (parse_process_char_in_record d self c Hc Hst) as Hstep.
      destruct (parse_process_char d self (Some c)) as [e | self1]; [left; exact Hstep|].
      specialize (IH Hline self1 (or_intror Hstep)).
      destruct (process_line d self1 line) as [e | self2].
      * destruct IH as [-> | [_ H]]; [auto | discriminate H].
      * right. destruct IH as [[_ ->] | H]; assumption.
Qed.

(** A line that is not empty and holds no line end is read as one
    record, which is not empty, unless the reader refuses it. *)
Lemma csv_reader_one_line (d : N) (line : Str) :
  line <> [] -> forallb (fun c => negb (is_crnl c)) line = true ->
  match csv_reader [line] d with
  | inl e => e = FieldLimitExceeded \/ (e = LineContainsNUL /\ csv_rejects_nul = true)
  | inr records => exists record, records = [record] /\ record <> []
  end.
Proof.
  intros Hne Hline. unfold csv_reader. cbn [reader_records].
  pose proof (process_line_in_record d line Hline parse_reset (or_introl eq_refl)) as H.
  destruct (process_line d parse_reset line) as [e | self1]; [exact H|].
  destruct H as [[-> _] | Hin]; [congruence|].
  destruct self1 as [st fs f]. cbn [state] in Hin.
  destruct st; try discriminate Hin; unfold parse_process_char; cbn.
  - exists (fs ++ [f]). split; [reflexivity|]. destruct fs; discriminate.
  - exists (fs ++ [f]). split; [reflexivity|]. destruct fs; discriminate.
  - rewrite orb_true_r. exists (fs ++ [f]). split; [reflexivity|].
    destruct fs; discriminate.
  - exists (fs ++ [f]). split; [reflexivity|]. destruct fs; discriminate.
Qed.

Lemma one_line_no_crnl (s : Str) :
  one_line s -> forallb (fun c => negb (is_crnl c)) s = true.
Proof.
  unfold one_line. rewrite !forallb_forall. intros H c Hc. specialize (H c Hc).
  destruct (is_crnl c) eqn:E; [|reflexivity].
  apply is_crnl_islinebreak in E. rewrite E in H. discriminate.
Qed.

Lemma StringIO_one_line (s : Str) : s <> [] -> one_line s -> StringIO s = [s].
Proof.
  intros Hne Hone. unfold StringIO. rewrite readlines_from_one.
  - destruct s; [congruence | reflexivity].
  - apply one_line_no_crnl in Hone. rewrite forallb_forall in *.
    intros c Hc. specialize (Hone c Hc). unfold is_crnl in Hone.
    destruct (c =? LF); [discriminate | reflexivity].
Qed.

(** X2. [parse_csv_row] never raises, and there are five things it can
    return: a row with no error, or no row with "empty response", with "no
    row with expected column count", or with the "parse error: ..." of the
    reader's field limit or (where the reader refuses NUL) of a NUL.  The
    messages "no data rows" and "expected K columns, got J" never come
    out: the normalised text is one line, which the reader always turns
    into one record. *)
Theorem parse_csv_row_outcomes (raw_text : Str) :
  (exists row, parse_csv_row raw_text = Return (Some row, None))
  \/ parse_csv_row raw_text = Return (None, Some (str "empty response"))
  \/ parse_csv_row raw_text
     = Return (None, Some (str "no row with expected column count"))
  \/ parse_csv_row raw_text
     = Return (None, Some (str "parse error: field larger than field limit (131072)"))
  \/ (csv_rejects_nul = true
      /\ parse_csv_row raw_text
         = Return (None, Some (str "parse error: line contains NUL"))).
Proof.
  destruct (parse_csv_row_row_or_error raw_text) as [Hrow | [e [He _]]];
    [left; exact Hrow | right].
  rewrite He. revert He. unfold parse_csv_row.
  destruct (nonempty (normalize_raw_text raw_text)) eqn:Hne; cbn [negb];
    [|intros [= <-]; left; reflexivity].
  apply nonempty_true in Hne.
  pose proof (normalize_raw_text_one_line raw_text) as Hone.
  rewrite (StringIO_one_line _ Hne Hone).
  pose proof (csv_reader_one_line
                (if char_in TAB (normalize_raw_text raw_text) then TAB else COMMA)
                _ Hne (one_line_no_crnl _ Hone)) as Hread.
  destruct (csv_reader _ _) as [exc | records].
  - intros [= <-]. right. right.
    destruct Hread as [-> | [-> Hnul]]; [left | right; split; [exact Hnul|]]; reflexivity.
  - destruct Hread as [record [-> Hrec]]. cbn [List.filter].
    rewrite (proj2 (nonempty_true record) Hrec). cbn [nonempty negb].
    destruct (select_candidate [record]) as [candidate|] eqn:Hsel.
    + rewrite (select_candidate_length _ _ Hsel), Nat.eqb_refl. cbn [negb].
      destruct (fill_result _ _ _); discriminate.
    + intros [= <-]. right. left. reflexivity.
Qed.

(** ** A name line over an address line *)

Lemma length_strip (t : Str) : (length (strip t) <= length t)%nat.
Proof.
  unfold strip. etransitivity; [apply length_rstrip_with|].
  apply length_drop_while.
Qed.

Lemma plain_token_strip (d : N) (t : Str) :
  plain_token d t = true ->
  csv_token d (strip t) /\ one_line (strip t)
  /\ char_in TAB (strip t) = false /\ char_in d (strip t) = false.
Proof.
  intros H. apply (plain_token_part d t _ H).
  - intros P. apply forallb_strip.
  - apply nonempty_true, (plain_token_nonblank d t H).
  - apply length_strip.
Qed.

(** X8. A two-line answer without tabs whose first line has no comma is
    read as the name on the first line and the address on the second
    (commas in the address are kept): for plain lines that are not, lower
    case, the field names themselves, [parse_csv_row] returns the two
    trimmed lines under "Customer Name" and "Customer Address". *)
Theorem parse_csv_row_name_over_address (nl : N) (name address : Str) :
  islinebreak nl = true ->
  plain_token TAB name = true -> plain_token TAB address = true ->
  char_in COMMA name = false ->
  map lower [strip name; strip address] <> map lower CSV_HEADERS ->
  parse_csv_row (name ++ [nl] ++ address)
  = Return (Some {[ str "Customer Name" := strip name;
                    str "Customer Address" := strip address ]}, None).
Proof.
  intros Hnl Hname Haddr Hcomma Hecho.
  destruct (plain_token_whole TAB _ Hname) as [_ [Ho1 _]].
  destruct (plain_token_whole TAB _ Haddr) as [_ [Ho2 _]].
  destruct (plain_token_strip TAB _ Hname) as [Hc1 [_ [Ht1 _]]].
  destruct (plain_token_strip TAB _ Haddr) as [Hc2 [_ [Ht2 _]]].
  rewrite <- row_of_literal.
  rewrite <- (strip_idem name), <- (strip_idem address).
  apply (parse_csv_row_tokens _ TAB [strip name; strip address]).
  - left. reflexivity.
  - discriminate.
  - constructor; [assumption | constructor; [assumption | constructor]].
  - rewrite normalize_raw_text_cascade.
    change (name ++ [nl] ++ address) with (name ++ nl :: address).
    rewrite trimmed_lines_two;
      try assumption; try (eapply plain_token_nonblank; eassumption).
    unfold cascade. cbn [existsb]. rewrite Ht1, Ht2. cbn [orb length].
    assert (char_in COMMA (strip name) = false) as ->.
    { apply char_in_false, forallb_strip, char_in_false, Hcomma. }
    reflexivity.
  - cbn [join]. rewrite !char_in_app. cbn. apply orb_true_r.
  - unfold candidate_step. cbn [map]. rewrite !strip_idem.
    destruct Hc1 as [_ [_ [Hne1 _]]].
    rewrite (proj2 (nonempty_true (A:=Str) [strip name; strip address])
               ltac:(discriminate)).
    cbn [negb]. rewrite bool_decide_eq_false_2 by exact Hecho.
    reflexivity.
Qed.

(** ** One screenshot *)

Lemma attempts_raised (image : Image) (remaining : nat) :
  forall attempt last_error current_prompt model model' calls e,
    attempts image remaining attempt last_error current_prompt model
    = (model', calls, Left_function (Raise e)) ->
    exists prompt, last calls = Some (prompt, Raise e).
Proof.
  induction remaining as [|remaining IH];
    intros attempt last_error current_prompt model model' calls e.
  - simpl. discriminate.
  - destruct (attempts_turn_exact image remaining attempt last_error current_prompt model)
      as [[e' [Hres ->]] | [[response [row [_ [_ [_ ->]]]]]
                          | [response [reason [_ [_ ->]]]]]].
    + intros [= <- <- <-]. rewrite Hres. eexists. reflexivity.
    + discriminate.
    + destruct (attempts image remaining _ _ _ _) as [[model2 calls'] exit] eqn:Hrest.
      intros [= <- <- ->].
      destruct (IH _ _ _ _ _ _ _ Hrest) as [p Hlast]. exists p.
      destruct calls' as [|c calls']; [discriminate | exact Hlast].
Qed.

(** How [request_csv_row] can end: with a row that parses from the raw
    text and passes the validator; with the exhaustion failure; or with
    the exception of its last call. *)
Lemma request_csv_row_cases (image : Image) (model model' : Model)
    (max_attempts : Z) (calls : list Call) (outcome : Outcome (Row * Str)) :
  request_csv_row image model max_attempts = (model', calls, outcome) ->
  (exists row raw_csv,
      outcome = Return (row, raw_csv)
      /\ parse_csv_row raw_csv = Return (Some row, None)
      /\ validate_csv_row row = None)
  \/ (exists last_error,
         outcome = Raise (ValueError (exhausted_msg max_attempts last_error)))
  \/ (exists e prompt, outcome = Raise e /\ last calls = Some (prompt, Raise e)).
Proof.
  unfold request_csv_row.
  destruct (attempts image _ _ _ _ _) as [[model2 calls'] exit] eqn:Hrun.
  destruct exit as [[[row raw_csv] | e] | last_error]; intros [= <- <- <-].
  - left. exists row, raw_csv.
    destruct (attempts_returned _ _ _ _ _ _ _ _ _ _ Hrun) as [Hp [Hv _]]. auto.
  - right. right. destruct (attempts_raised _ _ _ _ _ _ _ _ _ Hrun) as [p Hp]. eauto.
  - right. left. eauto.
Qed.

Lemma request_csv_row_within_bound (image : Image) (model : Model) :
  (length (snd (fst (request_csv_row image model 3))) <= 3)%nat.
Proof.
  unfold request_csv_row.
  pose proof (attempts_calls_bound image (Z.to_nat 3) 0%Z None CSV_PROMPT model) as H.
  destruct (attempts image _ _ _ _ _) as [[model' calls] exit].
  cbn [fst snd] in H. destruct exit; exact H.
Qed.

Section Screenshot.

Variable derives_from_Exception : Str -> bool.

Lemma process_screenshot_cases (image : Image) (model model' : Model)
    (calls : list Call) (outcome : Outcome Results) :
  process_screenshot derives_from_Exception image model = (model', calls, outcome) ->
  (length calls <= 3)%nat
  /\ ((exists row raw_csv,
          outcome = Return (mkResults (Some row) (Some raw_csv) None)
          /\ parse_csv_row raw_csv = Return (Some row, None)
          /\ validate_csv_row row = None)
      \/ (exists msg, outcome = Return (mkResults None None (Some msg)))
      \/ (exists e prompt,
             outcome = Raise e /\ is_Exception derives_from_Exception e = false
             /\ last calls = Some (prompt, Raise e))).
Proof.
  unfold process_screenshot.
  pose proof (request_csv_row_within_bound image model) as Hbound.
  destruct (request_csv_row image model 3) as [[model2 calls'] outcome'] eqn:Hreq.
  cbn [fst snd] in Hbound.
  destruct (request_csv_row_cases _ _ _ _ _ _ Hreq)
    as [[row [raw [-> [Hp Hv]]]] | [[last_error ->] | [e [p [-> Hlast]]]]].
  - intros [= <- <- <-]. split; [exact Hbound|]. left. exists row, raw. auto.
  - cbn [is_Exception]. intros [= <- <- <-]. split; [exact Hbound|].
    right. left. eexists. reflexivity.
  - destruct (is_Exception derives_from_Exception e) eqn:He; intros [= <- <- <-];
      (split; [exact Hbound|]).
    + right. left. eexists. reflexivity.
    + right. right. exists e, p. auto.
Qed.

(** X9. [process_screenshot] gives no partial result.  Its dictionary
    holds either a row and its raw text and no error, the row being one
    that [parse_csv_row] produces from that raw text and
    [validate_csv_row] accepts, or an error and nothing else.  The only
    exception that leaves it is one of the client's last call that does
    not derive from [Exception]. *)
Theorem process_screenshot_results (image : Image) (model : Model) :
  let calls := snd (fst (process_screenshot derives_from_Exception image model)) in
  let outcome := snd (process_screenshot derives_from_Exception image model) in
  (exists row raw_csv,
      outcome = Return (mkResults (Some row) (Some raw_csv) None)
      /\ parse_csv_row raw_csv = Return (Some row, None)
      /\ validate_csv_row row = None)
  \/ (exists msg, outcome = Return (mkResults None None (Some msg)))
  \/ (exists e prompt,
         outcome = Raise e /\ is_Exception derives_from_Exception e = false
         /\ last calls = Some (prompt, Raise e)).
Proof.
  destruct (process_screenshot derives_from_Exception image model)
    as [[model' calls] outcome] eqn:Hrun.
  exact (proj2 (process_screenshot_cases _ _ _ _ _ Hrun)).
Qed.

(** X10. [process_screenshot] asks the client at most three times. *)
Theorem process_screenshot_three_calls (image : Image) (model : Model) :
  (length (snd (fst (process_screenshot derives_from_Exception image model))) <= 3)%nat.
Proof.
  destruct (process_screenshot derives_from_Exception image model)
    as [[model' calls] outcome] eqn:Hrun.
  exact (proj1 (process_screenshot_cases _ _ _ _ _ Hrun)).
Qed.

(** X11. With a client whose every answer is turned down,
    [process_screenshot] makes exactly three calls and returns only the
    error "Failed to obtain valid CSV row after 3 attempts: " followed by
    the reason recorded for the third answer. *)
Theorem process_screenshot_gives_up (image : Image) (model : Model) :
  (forall model prompt, exists model1 response reason,
      query model image prompt = (model1, Return response)
      /\ answer_fails_with (strip (dict_get response (str "answer") [])) reason) ->
  exists model' calls prompt response reason,
    process_screenshot derives_from_Exception image model
    = (model', calls,
       Return (mkResults None None
                 (Some (str "Failed to obtain valid CSV row after 3 attempts: "
                        ++ reason))))
    /\ length calls = 3%nat
    /\ last calls = Some (prompt, Return response)
    /\ answer_fails_with (strip (dict_get response (str "answer") [])) reason.
Proof.
  intros Hstub. unfold process_screenshot, request_csv_row.
  change (Z.to_nat 3) with 3%nat.
  destruct (attempts_all_fail image Hstub 2%nat 0%Z None CSV_PROMPT model)
    as [model' [calls [prompt [response [reason [Hrun [Hlen [Hlast Hfail]]]]]]]].
  rewrite Hrun. exists model', calls, prompt, response, reason. auto.
Qed.

(** X12. When a call of the client raises, [process_screenshot] makes
    no further call; an exception that derives from [Exception] becomes
    the dictionary with only "error", holding its message, and any other
    exception passes through. *)
Theorem process_screenshot_client_exception (image : Image) (model model' : Model)
    (calls : list Call) (outcome : Outcome Results)
    (i : nat) (prompt : Str) (e : PyExc) :
  process_screenshot derives_from_Exception image model = (model', calls, outcome) ->
  calls !! i = Some (prompt, Raise e) ->
  length calls = S i
  /\ outcome = if is_Exception derives_from_Exception e
               then Return (mkResults None None (Some (exc_str e)))
               else Raise e.
Proof.
  unfold process_screenshot, request_csv_row.
  destruct (attempts image _ _ _ _ _) as [[model2 calls'] exit] eqn:Hrun.
  intros Hres Hi.
  assert (calls' = calls) as ->.
  { destruct exit as [[[row raw] | e'] | last_error]; cbn in Hres;
      try destruct (is_Exception _ _); congruence. }
  destruct (attempts_raise_is_last _ _ _ _ _ _ _ _ _ _ _ _ Hrun Hi) as [Hlen ->].
  split; [exact Hlen|]. cbn in Hres.
  destruct (is_Exception derives_from_Exception e); congruence.
Qed.

End Screenshot.

(** ** Decoding the screenshot *)

Lemma startswith_app (p s : Str) : startswith (p ++ s) p = true.
Proof. induction p as [|c p IH]; [reflexivity|]. simpl. now rewrite N.eqb_refl. Qed.

Lemma split_from_free (sep : N) (a cur : Str) :
  char_in sep a = false -> split_from sep cur a = [cur ++ a].
Proof.
  revert cur. induction a as [|c a IH]; intros cur H; simpl.
  - now rewrite app_nil_r.
  - cbn in H. apply orb_false_iff in H as [Hc Ha].
    rewrite N.eqb_sym, Hc, IH by assumption. now rewrite <- app_assoc.
Qed.

Lemma split_from_sep (sep : N) (a cur rest : Str) :
  char_in sep a = false ->
  split_from sep cur (a ++ sep :: rest) = (cur ++ a) :: split_from sep [] rest.
Proof.
  revert cur. induction a as [|c a IH]; intros cur H; simpl.
  - now rewrite N.eqb_refl, app_nil_r.
  - cbn in H. apply orb_false_iff in H as [Hc Ha].
    rewrite N.eqb_sym, Hc, IH by assumption. now rewrite <- app_assoc.
Qed.

Lemma drop_while_nonblank (p : N -> bool) (a rest : Str) :
  forallb p a = false -> drop_while p (a ++ rest) = drop_while p a ++ rest.
Proof.
  induction a as [|c a IH]; simpl; [discriminate|].
  destruct (p c); simpl; [exact IH | reflexivity].
Qed.

Lemma rstrip_with_blank (p : N -> bool) (a b : Str) :
  forallb p b = true -> rstrip_with p (a ++ b) = rstrip_with p a.
Proof.
  intros H. unfold rstrip_with. rewrite rev_app_distr, drop_while_all; [reflexivity|].
  now rewrite forallb_rev.
Qed.

Lemma rstrip_with_nonblank (p : N -> bool) (a b : Str) :
  forallb p b = false -> rstrip_with p (a ++ b) = a ++ rstrip_with p b.
Proof.
  intros H. unfold rstrip_with.
  rewrite rev_app_distr, drop_while_nonblank by now rewrite forallb_rev.
  now rewrite rev_app_distr, rev_involutive.
Qed.

(** The text handed to the decoder: trimmed, then without spaces and
    line feeds. *)
Lemma cleaned_insensitive (a b : Str) (c : N) :
  c = SPACE \/ c = LF ->
  remove_char LF (remove_char SPACE (strip (a ++ c :: b)))
  = remove_char LF (remove_char SPACE (strip (a ++ b))).
Proof.
  intros Hc.
  assert (isspace c = true) as Hsp by (destruct Hc as [-> | ->]; reflexivity).
  assert (forall x y, remove_char LF (remove_char SPACE (x ++ c :: y))
                      = remove_char LF (remove_char SPACE (x ++ y))) as Hdrop.
  { intros x y. unfold remove_char. rewrite !List.filter_app.
    destruct Hc as [-> | ->]; cbn [List.filter]; cbn;
      rewrite ?List.filter_app; reflexivity. }
  unfold strip, lstrip_with.
  destruct (forallb isspace a) eqn:Ha.
  - rewrite !drop_while_all by assumption. cbn [drop_while]. now rewrite Hsp.
  - rewrite !drop_while_nonblank by assumption.
    assert (forallb isspace (drop_while isspace a) = false) as Ha'.
    { destruct (drop_while_split isspace a) as [w [Hs Hw]].
      rewrite Hs, forallb_app, Hw in Ha. exact Ha. }
    destruct (forallb isspace b) eqn:Hb.
    + rewrite !rstrip_with_blank; [reflexivity | assumption |].
      cbn. now rewrite Hsp, Hb.
    + change (drop_while isspace a ++ c :: b)
        with (drop_while isspace a ++ [c] ++ b).
      rewrite app_assoc, !rstrip_with_nonblank by assumption.
      rewrite <- app_assoc. apply Hdrop.
Qed.

Section Decoding.

Variable b64decode : Str -> option (list N).
Variable Image_open : list N -> option Image.

(** X13. Of a data URL, [base64_to_image] decodes what stands between
    the first comma and the second (or the end): the "data:image...,"
    prefix is dropped, and so is anything from a second comma on. *)
Theorem base64_to_image_data_url (meta payload rest : Str) :
  char_in COMMA meta = false -> char_in COMMA payload = false ->
  startswith payload (str "data:image") = false ->
  rest = [] \/ hd_error rest = Some COMMA ->
  base64_to_image b64decode Image_open
    (str "data:image" ++ meta ++ [COMMA] ++ payload ++ rest)
  = base64_to_image b64decode Image_open payload.
Proof.
  intros Hmeta Hpayload Hplain Hrest. unfold base64_to_image.
  rewrite startswith_app, Hplain.
  replace (split COMMA (str "data:image" ++ meta ++ [COMMA] ++ payload ++ rest)
             !! 1%nat) with (Some payload); [reflexivity|].
  unfold split. rewrite app_assoc.
  change ([COMMA] ++ payload ++ rest) with (COMMA :: payload ++ rest).
  rewrite split_from_sep
    by (rewrite char_in_app, Hmeta; reflexivity).
  cbn [lookup list_lookup].
  destruct Hrest as [-> | Hhd].
  - rewrite app_nil_r, split_from_free by assumption. reflexivity.
  - destruct rest as [|c rest]; [discriminate|]. injection Hhd as ->.
    rewrite split_from_sep by assumption. reflexivity.
Qed.

(** X14. A text that opens with "data:image" and holds no comma is no
    image: [base64_to_image] returns [None] without decoding anything. *)
Theorem base64_to_image_prefix_without_comma (base64_string : Str) :
  startswith base64_string (str "data:image") = true ->
  char_in COMMA base64_string = false ->
  base64_to_image b64decode Image_open base64_string = None.
Proof.
  intros Hprefix Hcomma. unfold base64_to_image, split.
  rewrite Hprefix, split_from_free by assumption. reflexivity.
Qed.

(** X15. Spaces and line feeds do not count: putting one anywhere in a
    text that is no data URL, before or after, does not change what
    [base64_to_image] returns. *)
Theorem base64_to_image_ignores_spaces (a b : Str) (c : N) :
  c = SPACE \/ c = LF ->
  startswith (a ++ b) (str "data:image") = false ->
  startswith (a ++ c :: b) (str "data:image") = false ->
  base64_to_image b64decode Image_open (a ++ c :: b)
  = base64_to_image b64decode Image_open (a ++ b).
Proof.
  intros Hc H1 H2. unfold base64_to_image.
  rewrite H1, H2, (cleaned_insensitive a b c Hc). reflexivity.
Qed.

End Decoding.

(** ** One pass over the entries *)

Section Pass.

Variable derives_from_Exception : Str -> bool.
Variable b64decode : Str -> option (list N).
Variable Image_open : list N -> option Image.
Variable ObjectId : Type.
Variable str_of_ObjectId : ObjectId -> Str.
Variable Time : Type.
Variable Clock : Type.
Variable utcnow : Clock -> Clock * Time.
Variable Store : Type.
Variable update_one : Store -> Str -> ExportDoc Time -> Time -> Store * Outcome unit.
Variable delete_one : Store -> ObjectId -> Store * Outcome nat.

(** The loop of [process_once] and its step with the collaborators of
    this section. *)
Local Abbreviation run_entries :=
  (process_entries derives_from_Exception b64decode Image_open ObjectId
                   str_of_ObjectId Time Clock utcnow Store update_one delete_one).
Local Abbreviation step :=
  (entry_step derives_from_Exception b64decode Image_open ObjectId
              str_of_ObjectId Time Clock utcnow Store update_one delete_one).

(** The loop handles its first entry as [entry_step] says, and stops
    there or goes on with the other entries. *)
Lemma process_entries_step (entry : Entry ObjectId) (rest : list (Entry ObjectId))
    (model : Model) (store : Store) (clock : Clock) :
  exists model1 store1 clock1 calls ops exc,
    step entry model store clock model1 store1 clock1 calls ops exc
    /\ run_entries (entry :: rest) model store clock
       = match exc with
         | Some e => (model1, store1, clock1, calls, ops, Raise e)
         | None =>
             let '(model', store', clock', calls', ops', outcome) :=
               run_entries rest model1 store1 clock1 in
             (model', store', clock', calls ++ calls', ops ++ ops', outcome)
         end.
Proof.
  cbn [process_entries].
  destruct (entry_screenshot entry) as [screenshot|] eqn:Hshot.
  2: { exists model, store, clock, [], [], None. split; [|reflexivity].
       constructor. unfold unusable. now rewrite Hshot. }
  destruct screenshot as [|c screenshot]; cbn [nonempty negb].
  { exists model, store, clock, [], [], None. split; [|reflexivity].
    constructor. unfold unusable. rewrite Hshot. now left. }
  destruct (base64_to_image b64decode Image_open (c :: screenshot))
    as [image|] eqn:Himage.
  2: { exists model, store, clock, [], [], None. split; [|reflexivity].
       constructor. unfold unusable. rewrite Hshot. now right. }
  destruct (process_screenshot derives_from_Exception image model)
    as [[model1 calls] processed] eqn:Hrun.
  destruct (process_screenshot_cases _ _ _ _ _ _ Hrun)
    as [Hcalls [[row [raw [-> [Hparse Hval]]]] | [[msg ->] | [e [p [-> [He Hlast]]]]]]].
  - cbn [results_error results_csv_row].
    rewrite bool_decide_eq_false_2 by (eapply parsed_row_not_empty; eassumption).
    destruct (utcnow clock) as [clock1 now] eqn:Hnow.
    unfold export_doc_of. cbn [results_csv_raw default].
    destruct (update_one store _ _ now) as [store1 [u | e]] eqn:Hup.
    + destruct (delete_one store1 (entry__id entry)) as [store2 [n | e]] eqn:Hdel.
      * eexists model1, store2, clock1, calls, _, None. split; [|reflexivity].
        eapply entry_exported; eassumption.
      * eexists model1, store2, clock1, calls, _, (Some e). split; [|reflexivity].
        eapply entry_delete_raised; eassumption.
    + eexists model1, store1, clock1, calls, _, (Some e). split; [|reflexivity].
      eapply entry_update_raised; eassumption.
  - cbn [results_error]. exists model1, store, clock, calls, [], None.
    split; [|reflexivity]. now constructor.
  - exists model1, store, clock, calls, [], (Some e). split; [|reflexivity].
    econstructor; eassumption.
Qed.

(** An induction over the loop: what holds of the writes of every step
    and is kept by putting two runs of writes one after the other holds of
    the writes of the loop. *)
Lemma process_entries_ops (P : list (StoreOp ObjectId Time) -> Prop) :
  P [] ->
  (forall a b, P a -> P b -> P (a ++ b)) ->
  (forall entry model store clock model1 store1 clock1 calls ops exc,
      step entry model store clock model1 store1 clock1 calls ops exc -> P ops) ->
  forall entries model store clock,
    P (snd (fst (run_entries entries model store clock))).
Proof.
  intros Hnil Happ Hstep entries.
  induction entries as [|entry rest IH]; intros model store clock; [exact Hnil|].
  destruct (process_entries_step entry rest model store clock)
    as [model1 [store1 [clock1 [calls [ops [exc [Hs ->]]]]]]].
  specialize (Hstep _ _ _ _ _ _ _ _ _ _ Hs). destruct exc as [e|]; [exact Hstep|].
  specialize (IH model1 store1 clock1).
  destruct (run_entries rest model1 store1 clock1)
    as [[[[[model' store'] clock'] calls'] ops'] outcome].
  cbn [fst snd] in IH |- *. now apply Happ.
Qed.

(** In the writes of the loop, every [delete_one] comes right after an
    [update_one] for the same entry that returned. *)
Lemma process_entries_saves_before_deleting (entries : list (Entry ObjectId))
    (model : Model) (store : Store) (clock : Clock) :
  forall i id result,
    snd (fst (run_entries entries model store clock)) !! i
    = Some (Delete_one id result) ->
    exists j doc now,
      i = S j
      /\ snd (fst (run_entries entries model store clock)) !! j
         = Some (Update_one (str_of_ObjectId id) doc now (Return tt)).
Proof.
  revert entries model store clock.
  apply (process_entries_ops
           (fun ops => forall i id result,
                ops !! i = Some (Delete_one id result) ->
                exists j doc now,
                  i = S j
                  /\ ops !! j = Some (Update_one (str_of_ObjectId id) doc now
                                                 (Return tt)))).
  - intros i id result H. discriminate H.
  - intros a b Ha Hb i id result H. apply lookup_app_Some in H as [H | [Hlen H]].
    + destruct (Ha _ _ _ H) as [j [doc [now [-> Hj]]]].
      exists j, doc, now. split; [reflexivity|]. now apply lookup_app_l_Some.
    + destruct (Hb _ _ _ H) as [j [doc [now [Hi Hj]]]].
      exists (length a + j)%nat, doc, now. split; [lia|].
      rewrite lookup_app_r by lia.
      now replace (length a + j - length a)%nat with j by lia.
  - intros entry model store clock model1 store1 clock1 calls ops exc Hs i id result H.
    inversion Hs; subst; try discriminate H.
    + destruct i as [|[|i]]; try discriminate H. injection H as <- _.
      exists 0%nat. destruct u. eauto.
    + destruct i as [|[|i]]; discriminate H.
    + destruct i as [|[|i]]; try discriminate H. injection H as <- _.
      exists 0%nat. destruct u. eauto.
Qed.

(** Every document the loop sends to the exports collection comes from
    one of its entries and from a row that parses from the document's
    [rawResponse] and is valid. *)
Lemma process_entries_exports_valid_rows (entries : list (Entry ObjectId))
    (model : Model) (store : Store) (clock : Clock) :
  forall i id doc created result,
    snd (fst (run_entries entries model store clock)) !! i
    = Some (Update_one id doc created result) ->
    exists entry row,
      In entry entries
      /\ id = str_of_ObjectId (entry__id entry)
      /\ entryId doc = id
      /\ userId doc = default (str "unknown") (entry_userId entry)
      /\ parse_csv_row (rawResponse doc) = Return (Some row, None)
      /\ validate_csv_row row = None
      /\ customerName doc = dict_get row (str "Customer Name") []
      /\ customerAddress doc = dict_get row (str "Customer Address") []
      /\ processedAt doc = created /\ updatedAt doc = created.
Proof.
  revert model store clock.
  induction entries as [|entry rest IH]; intros model store clock i id doc created result.
  { intros H. discriminate H. }
  destruct (process_entries_step entry rest model store clock)
    as [model1 [store1 [clock1 [calls [ops [exc [Hs ->]]]]]]].
  assert (forall k, ops !! k = Some (Update_one id doc created result) ->
            exists row,
              id = str_of_ObjectId (entry__id entry)
              /\ entryId doc = id
              /\ userId doc = default (str "unknown") (entry_userId entry)
              /\ parse_csv_row (rawResponse doc) = Return (Some row, None)
              /\ validate_csv_row row = None
              /\ customerName doc = dict_get row (str "Customer Name") []
              /\ customerAddress doc = dict_get row (str "Customer Address") []
              /\ processedAt doc = created /\ updatedAt doc = created) as Hhere.
  { intros k Hk. inversion Hs; subst; try discriminate Hk;
      destruct k as [|[|k]]; try discriminate Hk;
      injection Hk as <- <- <- <-; exists row; cbn; auto 10. }
  destruct exc as [e|].
  - cbn [fst snd]. intros H. destruct (Hhere _ H) as [row Hrow].
    exists entry, row. split; [now left | exact Hrow].
  - specialize (IH model1 store1 clock1).
    destruct (run_entries rest model1 store1 clock1)
      as [[[[[model' store'] clock'] calls'] ops'] outcome].
    cbn [fst snd] in IH |- *. intros H.
    apply lookup_app_Some in H as [H | [_ H]].
    + destruct (Hhere _ H) as [row Hrow].
      exists entry, row. split; [now left | exact Hrow].
    + destruct (IH _ _ _ _ _ H) as [entry' [row [Hin Hrow]]].
      exists entry', row. split; [now right | exact Hrow].
Qed.

(** The loop passes over entries without a usable screenshot. *)
Lemma process_entries_skips_unusable (entries : list (Entry ObjectId))
    (model : Model) (store : Store) (clock : Clock) :
  Forall (unusable b64decode Image_open ObjectId) entries ->
  run_entries entries model store clock = (model, store, clock, [], [], Return tt).
Proof.
  induction 1 as [|entry rest Hentry _ IH]; [reflexivity|].
  cbn [process_entries]. unfold unusable in Hentry.
  destruct (entry_screenshot entry) as [screenshot|].
  - destruct Hentry as [-> | Hnone]; cbn [nonempty negb].
    + now rewrite IH.
    + destruct screenshot; cbn [nonempty negb]; [now rewrite IH|].
      rewrite Hnone. now rewrite IH.
  - now rewrite IH.
Qed.

(** At most three calls and two writes per entry of the loop. *)
Lemma process_entries_bounds (entries : list (Entry ObjectId))
    (model : Model) (store : Store) (clock : Clock) :
  (length (snd (fst (fst (run_entries entries model store clock))))
   <= 3 * length entries)%nat
  /\ (length (snd (fst (run_entries entries model store clock)))
      <= 2 * length entries)%nat.
Proof.
  revert model store clock.
  induction entries as [|entry rest IH]; intros model store clock.
  { cbn. lia. }
  destruct (process_entries_step entry rest model store clock)
    as [model1 [store1 [clock1 [calls [ops [exc [Hs ->]]]]]]].
  assert ((length calls <= 3)%nat /\ (length ops <= 2)%nat) as [Hc Ho]
      by (inversion Hs; subst; cbn [length]; lia).
  destruct exc as [e|]; [cbn [fst snd length]; lia|].
  specialize (IH model1 store1 clock1).
  destruct (run_entries rest model1 store1 clock1)
    as [[[[[model' store'] clock'] calls'] ops'] outcome].
  cbn [fst snd] in IH |- *. rewrite !length_app. cbn [length]. lia.
Qed.

(** The loop ends with an exception only of its last write or of the
    last call of the client. *)
Lemma process_entries_aborts_only_on (entries : list (Entry ObjectId))
    (model : Model) (store : Store) (clock : Clock) (e : PyExc) :
  snd (run_entries entries model store clock) = Raise e ->
  (exists id doc now,
      last (snd (fst (run_entries entries model store clock)))
      = Some (Update_one id doc now (Raise e)))
  \/ (exists id,
         last (snd (fst (run_entries entries model store clock)))
         = Some (Delete_one id (Raise e)))
  \/ (exists prompt,
         is_Exception derives_from_Exception e = false
         /\ last (snd (fst (fst (run_entries entries model store clock))))
            = Some (prompt, Raise e)).
Proof.
  revert model store clock.
  induction entries as [|entry rest IH]; intros model store clock.
  { cbn. discriminate. }
  destruct (process_entries_step entry rest model store clock)
    as [model1 [store1 [clock1 [calls [ops [exc [Hs ->]]]]]]].
  destruct exc as [e'|].
  - cbn [fst snd]. intros [= ->].
    inversion Hs; subst.
    + right. right. eauto.
    + left. eauto.
    + right. left. eauto.
  - specialize (IH model1 store1 clock1).
    destruct (run_entries rest model1 store1 clock1)
      as [[[[[model' store'] clock'] calls'] ops'] outcome].
    cbn [fst snd] in IH |- *. intros H.
    destruct (IH H) as [[id [doc [now Hl]]] | [[id Hl] | [p [He Hl]]]].
    + left. exists id, doc, now. rewrite last_app, Hl. reflexivity.
    + right. left. exists id. rewrite last_app, Hl. reflexivity.
    + right. right. exists p. split; [exact He|]. rewrite last_app, Hl. reflexivity.
Qed.

(** The reads, and the whole function. *)
Variable count_documents : Store -> Filter -> Store * Outcome nat.
Variable find_sorted : Store -> Store * Outcome (list (Entry ObjectId)).
Variable find_one : Store -> Store * Outcome (option (Entry ObjectId)).

Local Abbreviation fetch :=
  (fetch_entries ObjectId Store count_documents find_sorted find_one).
Local Abbreviation fetched :=
  (fetched_entries ObjectId Store count_documents find_sorted find_one).
Local Abbreviation run_once :=
  (process_once derives_from_Exception b64decode Image_open ObjectId
                str_of_ObjectId Time Clock utcnow Store update_one delete_one
                count_documents find_sorted find_one).

(** X16. An entry is deleted from the source collection only after its
    export was saved: in the writes of a pass, every [delete_one] comes
    right after an [update_one] for the same entry that returned. *)
Theorem process_once_saves_before_deleting (model : Model) (store : Store)
    (clock : Clock) :
  let run :=
    process_once derives_from_Exception b64decode Image_open ObjectId
      str_of_ObjectId Time Clock utcnow Store update_one delete_one
      count_documents find_sorted find_one model store clock in
  forall i id result,
    snd (fst run) !! i = Some (Delete_one id result) ->
    exists j doc now,
      i = S j
      /\ snd (fst run) !! j
         = Some (Update_one (str_of_ObjectId id) doc now (Return tt)).
Proof.
  cbv zeta. unfold process_once. destruct (fetch store) as [store' [entries | e]].
  - apply process_entries_saves_before_deleting.
  - intros i id result H. discriminate H.
Qed.

(** X17. Every document the pass sends to the exports collection comes
    from an entry it fetched and from a row that [parse_csv_row] produces
    from the document's [rawResponse] and [validate_csv_row] accepts: the
    document carries the entry's id (also as the key of the update) and
    user (or "unknown"), the row's two fields, and one time for
    [processedAt], [updatedAt] and the [createdAt] of an insert. *)
Theorem process_once_exports_valid_rows (model : Model) (store : Store)
    (clock : Clock) :
  forall i id doc created result,
    snd (fst (run_once model store clock)) !! i
    = Some (Update_one id doc created result) ->
    exists entry row,
      In entry (fetched store)
      /\ id = str_of_ObjectId (entry__id entry)
      /\ entryId doc = id
      /\ userId doc = default (str "unknown") (entry_userId entry)
      /\ parse_csv_row (rawResponse doc) = Return (Some row, None)
      /\ validate_csv_row row = None
      /\ customerName doc = dict_get row (str "Customer Name") []
      /\ customerAddress doc = dict_get row (str "Customer Address") []
      /\ processedAt doc = created /\ updatedAt doc = created.
Proof.
  unfold process_once, fetched_entries.
  destruct (fetch store) as [store' [entries | e]]; cbn [snd].
  - apply process_entries_exports_valid_rows.
  - intros i id doc created result H. discriminate H.
Qed.

(** X18. Entries without a screenshot, with an empty one, or with one
    that does not decode are passed over: when the reads go through and
    fetch such entries alone (or none), the pass asks the client nothing,
    writes nothing, leaves the clock alone and ends normally. *)
Theorem process_once_skips_unusable (model : Model) (store store' : Store)
    (clock : Clock) (entries : list (Entry ObjectId)) :
  fetch store = (store', Return entries) ->
  Forall (unusable b64decode Image_open ObjectId) entries ->
  run_once model store clock = (model, store', clock, [], [], Return tt).
Proof.
  intros Hfetch Hentries. unfold process_once. rewrite Hfetch.
  now apply process_entries_skips_unusable.
Qed.

(** X19. The pass asks the client at most three times per entry it
    fetched, and writes to the store at most twice per entry. *)
Theorem process_once_bounds (model : Model) (store : Store) (clock : Clock) :
  let run :=
    process_once derives_from_Exception b64decode Image_open ObjectId
      str_of_ObjectId Time Clock utcnow Store update_one delete_one
      count_documents find_sorted find_one model store clock in
  (length (snd (fst (fst run))) <= 3 * length (fetched store))%nat
  /\ (length (snd (fst run)) <= 2 * length (fetched store))%nat.
Proof.
  cbv zeta. unfold process_once, fetched_entries.
  destruct (fetch store) as [store' [entries | e]]; cbn [snd].
  - apply process_entries_bounds.
  - cbn. lia.
Qed.

(** X20. A failed extraction never ends the pass.  A pass ends with an
    exception only when one of the reads that open it raised it (and then
    no call and no write was made), when its last write to the store
    raised it, or when the last call of the client raised it and it does
    not derive from [Exception]. *)
Theorem process_once_aborts_only_on (model : Model) (store : Store)
    (clock : Clock) (e : PyExc) :
  snd (run_once model store clock) = Raise e ->
  (snd (fetch store) = Raise e
   /\ snd (fst (fst (run_once model store clock))) = []
   /\ snd (fst (run_once model store clock)) = [])
  \/ (exists id doc now,
         last (snd (fst (run_once model store clock)))
         = Some (Update_one id doc now (Raise e)))
  \/ (exists id,
         last (snd (fst (run_once model store clock)))
         = Some (Delete_one id (Raise e)))
  \/ (exists prompt,
         is_Exception derives_from_Exception e = false
         /\ last (snd (fst (fst (run_once model store clock))))
            = Some (prompt, Raise e)).
Proof.
  unfold process_once. destruct (fetch store) as [store' [entries | e']]; cbn [snd].
  - intros H. right. now apply process_entries_aborts_only_on.
  - intros [= ->]. left. cbn. auto.
Qed.

End Pass.

End Pipeline.

(** * Finding the database and the collections *)

Lemma in_list_In (x : Str) (xs : list Str) : in_list x xs = true <-> In x xs.
Proof.
  unfold in_list. rewrite existsb_exists. split.
  - intros [y [Hin Hy]]. apply bool_decide_eq_true in Hy. now subst.
  - intros Hin. exists x. split; [exact Hin | now apply bool_decide_eq_true].
Qed.

Lemma in_list_not_In (x : Str) (xs : list Str) : in_list x xs = false <-> ~ In x xs.
Proof.
  rewrite <- in_list_In. destruct (in_list x xs); split; congruence.
Qed.

(** [List.find] gives the first element that passes. *)
Lemma find_first {A} (p : A -> bool) (l : list A) (x : A) :
  List.find p l = Some x ->
  exists before after,
    l = before ++ x :: after /\ p x = true
    /\ Forall (fun y => p y = false) before.
Proof.
  induction l as [|y l IH]; simpl; [discriminate|].
  destruct (p y) eqn:Hy.
  - intros [= <-]. exists [], l. repeat split; [exact Hy | constructor].
  - intros H. destruct (IH H) as [before [after [-> [Hx Hb]]]].
    exists (y :: before), after. repeat split; [exact Hx | now constructor].
Qed.

Lemma first_possible_Some (collections : list Str) (coll_name : Str) :
  first_possible collections = Some coll_name -> chosen_in collections coll_name.
Proof.
  intros H. apply find_first in H as [before [after [Hsplit [Hin Hb]]]].
  exists before, after. repeat split; [exact Hsplit | now apply in_list_In |].
  eapply List.Forall_impl; [|exact Hb]. intros c Hc. now apply in_list_not_In.
Qed.

Lemma first_possible_None (collections : list Str) :
  first_possible collections = None
  <-> forall c, In c possible_collections -> ~ In c collections.
Proof.
  unfold first_possible. split.
  - intros H c Hc. apply in_list_not_In. exact (List.find_none _ _ H c Hc).
  - intros H. destruct (List.find _ _) as [c|] eqn:E; [|reflexivity].
    apply List.find_some in E as [Hc Hin]. apply in_list_In in Hin.
    now destruct (H c Hc).
Qed.

Lemma search_databases_Some (client : Client) (dbs : list Str) (db coll : Str) :
  search_databases client dbs = Some (db, coll) ->
  exists before after,
    dbs = before ++ db :: after
    /\ ~ In db system_databases
    /\ chosen_in (list_collection_names client db) coll
    /\ Forall (passed_over client) before.
Proof.
  induction dbs as [|d dbs IH]; cbn [search_databases]; [discriminate|].
  destruct (in_list d system_databases) eqn:Hsys.
  - intros H. destruct (IH H) as [before [after [-> [Hns [Hch Hb]]]]].
    exists (d :: before), after. repeat split; try assumption.
    constructor; [|exact Hb]. left. now apply in_list_In.
  - destruct (first_possible (list_collection_names client d)) as [c|] eqn:Hc.
    + intros [= <- <-]. exists [], dbs. repeat split.
      * now apply in_list_not_In.
      * now apply first_possible_Some.
      * constructor.
    + intros H. destruct (IH H) as [before [after [-> [Hns [Hch Hb]]]]].
      exists (d :: before), after. repeat split; try assumption.
      constructor; [|exact Hb]. right. now apply first_possible_None.
Qed.


Lemma chosen_in_possible (collections : list Str) (coll : Str) :
  chosen_in collections coll -> In coll possible_collections.
Proof.
  intros [before [after [-> _]]]. apply in_or_app. right. now left.
Qed.

(** X21. Whatever the server holds, the collection
    [prepare_collections] settles on bears one of the four names
    "ocrtexts", "ocrtext", "ocr_texts", "ocr_text", its database is one
    the server listed, and the exports go to "ocrexports" of that
    database. *)
Theorem prepare_collections_names (MONGODB_DB : Str) (client : Client)
    (db coll exports : Str) :
  prepare_collections MONGODB_DB client = Return (db, coll, exports) ->
  In db (list_database_names client)
  /\ In coll possible_collections
  /\ exports = str "ocrexports".
Proof.
  unfold prepare_collections.
  destruct (in_list MONGODB_DB (list_database_names client)) eqn:Hcfg.
  - apply in_list_In in Hcfg.
    destruct (first_possible _) as [c|] eqn:Hc; intros [= <- <- <-];
      (split; [exact Hcfg|]); (split; [|reflexivity]).
    + eapply chosen_in_possible, first_possible_Some, Hc.
    + now left.
  - destruct (search_databases client (list_database_names client))
      as [[d c]|] eqn:Hs; [|discriminate].
    intros [= <- <- <-].
    apply search_databases_Some in Hs as [before [after [Hsplit [_ [Hch _]]]]].
    split; [rewrite Hsplit; apply in_or_app; right; now left|].
    split; [eapply chosen_in_possible, Hch | reflexivity].
Qed.



(** X24. When the configured database is not on the server, the
    database [prepare_collections] settles on is the first listed one that
    is no system database and has one of the four collections, and the
    collection is the preferred one among those it has. *)
Theorem prepare_collections_search (MONGODB_DB : Str) (client : Client)
    (db coll exports : Str) :
  ~ In MONGODB_DB (list_database_names client) ->
  prepare_collections MONGODB_DB client = Return (db, coll, exports) ->
  exists before after,
    list_database_names client = before ++ db :: after
    /\ ~ In db system_databases
    /\ chosen_in (list_collection_names client db) coll
    /\ Forall (passed_over client) before.
Proof.
  intros Hcfg. apply in_list_not_In in Hcfg. unfold prepare_collections.
  rewrite Hcfg.
  destruct (search_databases client (list_database_names client))
    as [[d c]|] eqn:Hs; [|discriminate].
  intros [= <- <- <-]. now apply search_databases_Some.
Qed.

(** * The name of the database *)

(** X25. The script exits when [MONGODB_URI] is unset or empty, and
    only then; otherwise, whatever the environment and the connection
    string hold (and whether or not [urlparse] raises), the database name
    it ends up with is not empty. *)
Theorem MONGODB_DB_not_empty (urlparse_path : Str -> option Str)
    (env_MONGODB_URI env_MONGODB_DB : option Str) :
  (nonempty (default [] env_MONGODB_URI) = false
   /\ MONGODB_DB_at_start urlparse_path env_MONGODB_URI env_MONGODB_DB
      = Raise SystemExit_1)
  \/ (nonempty (default [] env_MONGODB_URI) = true
      /\ exists MONGODB_DB,
           MONGODB_DB_at_start urlparse_path env_MONGODB_URI env_MONGODB_DB
           = Return MONGODB_DB
           /\ nonempty MONGODB_DB = true).
Proof.
  unfold MONGODB_DB_at_start.
  destruct env_MONGODB_URI as [MONGODB_URI|]; [|left; split; reflexivity].
  change (default [] (Some MONGODB_URI)) with MONGODB_URI.
  destruct (nonempty MONGODB_URI) eqn:Huri; cbn [negb];
    [right | left; split; reflexivity].
  split; [reflexivity|]. eexists. split; [reflexivity|].
  unfold MONGODB_DB_of.
  destruct (nonempty (default [] env_MONGODB_DB)) eqn:Henv; [exact Henv|].
  destruct (database_of_uri urlparse_path MONGODB_URI) as [[db|]|]; try reflexivity.
  destruct (nonempty db) eqn:Hdb; [exact Hdb | reflexivity].
Qed.

Lemma startswith_prefix (s p : Str) :
  startswith s p = true -> exists t, s = p ++ t.
Proof.
  revert s. induction p as [|c p IH]; intros s; [exists s; reflexivity|].
  destruct s as [|x s]; [discriminate|]. cbn [startswith].
  intros H. apply andb_true_iff in H as [Hx Hs]. apply N.eqb_eq in Hx as ->.
  destruct (IH s Hs) as [t ->]. now exists t.
Qed.

(** A text without a character of the separator holds no separator. *)
Lemma startswith_free (c : N) (sep s : Str) :
  char_in c sep = true -> char_in c s = false -> startswith s sep = false.
Proof.
  intros Hsep Hs. destruct (startswith s sep) eqn:E; [|reflexivity].
  apply startswith_prefix in E as [t ->].
  rewrite char_in_app, Hsep in Hs. discriminate.
Qed.

Lemma split_str_from_free (c : N) (sep s cur : Str) :
  char_in c sep = true -> char_in c s = false ->
  split_str_from sep 0 cur s = [cur ++ s].
Proof.
  intros Hsep. revert cur. induction s as [|x s IH]; intros cur Hs.
  - cbn. now rewrite app_nil_r.
  - cbn [split_str_from]. rewrite (startswith_free c sep (x :: s) Hsep Hs).
    cbn in Hs. apply orb_false_iff in Hs as [_ Hs].
    rewrite IH by exact Hs. now rewrite <- app_assoc.
Qed.

Lemma split_str_from_skip (sep a s cur : Str) :
  split_str_from sep (length a) cur (a ++ s) = split_str_from sep 0 cur s.
Proof.
  induction a as [|x a IH]; [reflexivity|]. exact IH.
Qed.

(** After the scheme, with no second scheme behind it, comes the second
    piece of the split. *)
Lemma split_str_scheme (rest : Str) :
  char_in PLUS rest = false ->
  split_str SRV_SCHEME (SRV_SCHEME ++ rest) !! 1%nat = Some rest.
Proof.
  intros Hrest. unfold split_str.
  change (SRV_SCHEME ++ rest) with (109 :: (str "ongodb+srv://" ++ rest)).
  cbn [split_str_from].
  change (109 :: (str "ongodb+srv://" ++ rest)) with (SRV_SCHEME ++ rest).
  rewrite startswith_app.
  change (length SRV_SCHEME - 1)%nat with (length (str "ongodb+srv://")).
  rewrite split_str_from_skip.
  rewrite (split_str_from_free PLUS SRV_SCHEME rest [] eq_refl Hrest).
  reflexivity.
Qed.

Lemma contains_scheme (rest : Str) : contains SRV_SCHEME (SRV_SCHEME ++ rest) = true.
Proof.
  change (SRV_SCHEME ++ rest) with (109 :: (str "ongodb+srv://" ++ rest)).
  cbn [contains].
  change (109 :: (str "ongodb+srv://" ++ rest)) with (SRV_SCHEME ++ rest).
  now rewrite startswith_app.
Qed.

Lemma split_from_hd (sep : N) (s cur : Str) :
  hd [] (split_from sep cur s) = cur ++ take_until sep s.
Proof.
  revert cur. induction s as [|x s IH]; intros cur; cbn [split_from take_until].
  - now rewrite app_nil_r.
  - destruct (x =? sep); cbn [hd]; [now rewrite app_nil_r|].
    rewrite IH, <- app_assoc. reflexivity.
Qed.

Lemma split_from_pieces (sep : N) (s cur : Str) : split_from sep cur s <> [].
Proof.
  revert cur. induction s as [|x s IH]; intros cur; cbn [split_from]; [discriminate|].
  destruct (x =? sep); [discriminate | apply IH].
Qed.

Lemma split_from_second (sep : N) (a rest cur : Str) :
  char_in sep a = false ->
  split_from sep cur (a ++ sep :: rest) !! 1%nat = Some (take_until sep rest).
Proof.
  intros Ha. rewrite split_from_sep by assumption.
  pose proof (split_from_hd sep rest []) as H.
  destruct (split_from sep [] rest) as [|p ps] eqn:E.
  - now apply split_from_pieces in E.
  - cbn [hd] in H. cbn. now rewrite H.
Qed.

Lemma take_until_free (c : N) (a rest : Str) :
  char_in c a = false -> take_until c (a ++ rest) = a ++ take_until c rest.
Proof.
  induction a as [|x a IH]; intros Ha; [reflexivity|].
  cbn in Ha. apply orb_false_iff in Ha as [Hx Ha].
  cbn [app take_until]. rewrite N.eqb_sym, Hx, IH by assumption. reflexivity.
Qed.

Lemma take_until_all (c : N) (a : Str) : char_in c a = false -> take_until c a = a.
Proof.
  intros Ha. rewrite <- (app_nil_r a) at 1.
  rewrite take_until_free by assumption. cbn. apply app_nil_r.
Qed.

(** X26. With no database name in the environment, the name is read
    off an SRV connection string: for "mongodb+srv://" followed by a host
    part, a slash and a name, where the string ends or goes on with "?" or
    "/", the database name is that name. *)
Theorem MONGODB_DB_of_srv_uri (urlparse_path : Str -> option Str)
    (env_MONGODB_DB : option Str) (host db rest : Str) :
  nonempty (default [] env_MONGODB_DB) = false ->
  char_in PLUS (host ++ db ++ rest) = false ->
  char_in SLASH host = false ->
  db <> [] -> char_in SLASH db = false -> char_in QUESTION db = false ->
  rest = [] \/ hd_error rest = Some QUESTION \/ hd_error rest = Some SLASH ->
  MONGODB_DB_of urlparse_path env_MONGODB_DB
    (str "mongodb+srv://" ++ host ++ [SLASH] ++ db ++ rest)
  = db.
Proof.
  intros Henv Hplus Hhost Hne Hdb1 Hdb2 Hrest.
  unfold MONGODB_DB_of, database_of_uri. rewrite Henv.
  change (str "mongodb+srv://") with SRV_SCHEME.
  rewrite contains_scheme, split_str_scheme.
  2: { rewrite !char_in_app in *. apply orb_false_iff in Hplus as [-> Hp].
       apply orb_false_iff in Hp as [-> ->]. reflexivity. }
  assert (char_in SLASH (host ++ [SLASH] ++ db ++ rest) = true) as ->
      by (rewrite !char_in_app; cbn; now rewrite orb_true_r).
  unfold split. change ([SLASH] ++ db ++ rest) with (SLASH :: db ++ rest).
  rewrite split_from_second, take_until_free by assumption.
  assert (exists t, take_until SLASH rest = t
                    /\ (t = [] \/ hd_error t = Some QUESTION)) as [t [-> Ht]].
  { eexists. split; [reflexivity|].
    destruct Hrest as [-> | [H | H]]; [left; reflexivity | right | left];
      destruct rest as [|x rest]; try discriminate H; injection H as ->; reflexivity. }
  assert (startswith (db ++ t) [QUESTION] = false) as ->.
  { destruct db as [|x db]; [congruence|].
    change (char_in QUESTION (x :: db))
      with ((QUESTION =? x) || char_in QUESTION db) in Hdb2.
    apply orb_false_iff in Hdb2 as [Hx _].
    change (((x =? QUESTION) && true) = false).
    now rewrite N.eqb_sym, Hx. }
  cbn [negb].
  assert ((if char_in QUESTION (db ++ t)
           then hd [] (split_from QUESTION [] (db ++ t)) else db ++ t) = db) as ->.
  { rewrite split_from_hd, take_until_free by assumption. cbn [app].
    destruct Ht as [-> | Ht].
    - rewrite app_nil_r, Hdb2. reflexivity.
    - destruct t as [|x t]; [discriminate|]. injection Ht as ->.
      rewrite char_in_app. cbn. rewrite orb_true_r. now rewrite app_nil_r. }
  now rewrite (proj2 (nonempty_true db) Hne).
Qed.

(** X27. An SRV connection string that names no database gives the
    default: with nothing after the host part, or only a slash, or a slash
    and "?" with options, the database name is "breather". *)
Theorem MONGODB_DB_of_srv_uri_default (urlparse_path : Str -> option Str)
    (env_MONGODB_DB : option Str) (host options : Str) :
  nonempty (default [] env_MONGODB_DB) = false ->
  char_in PLUS (host ++ options) = false ->
  char_in SLASH host = false ->
  MONGODB_DB_of urlparse_path env_MONGODB_DB (str "mongodb+srv://" ++ host)
  = str "breather"
  /\ MONGODB_DB_of urlparse_path env_MONGODB_DB
       (str "mongodb+srv://" ++ host ++ [SLASH])
     = str "breather"
  /\ MONGODB_DB_of urlparse_path env_MONGODB_DB
       (str "mongodb+srv://" ++ host ++ [SLASH; QUESTION] ++ options)
     = str "breather".
Proof.
  intros Henv Hplus Hhost.
  rewrite char_in_app in Hplus. apply orb_false_iff in Hplus as [Hp1 Hp2].
  unfold MONGODB_DB_of, database_of_uri. rewrite Henv.
  change (str "mongodb+srv://") with SRV_SCHEME.
  rewrite !contains_scheme, !split_str_scheme
    by (rewrite ?char_in_app, ?Hp1, ?Hp2; reflexivity).
  repeat split.
  - now rewrite Hhost.
  - rewrite char_in_app, Hhost. cbn [char_in existsb orb].
    replace (SLASH =? SLASH) with true by reflexivity. cbn [orb].
    unfold split. rewrite split_from_second by assumption. reflexivity.
  - assert (char_in SLASH (host ++ [SLASH; QUESTION] ++ options) = true) as ->
        by (rewrite !char_in_app; cbn; now rewrite orb_true_r).
    unfold split. change ([SLASH; QUESTION] ++ options)
      with (SLASH :: QUESTION :: options).
    rewrite split_from_second by assumption. reflexivity.
Qed.

(** * Examples *)

Lemma stub_unreadable_always_fails (model : unit) (prompt : Str) :
  exists model1 response reason,
    stub_unreadable model tt prompt = (model1, Return response)
    /\ answer_fails_with ascii_lower false
         (strip (dict_get response (str "answer") [])) reason.
Proof.
  exists model, unreadable, (str "no row with expected column count").
  split; [reflexivity | left; vm_compute; reflexivity].
Defined.

Lemma request_csv_row_exhausts_witness :
  exists model' calls prompt response reason,
    request_csv_row ascii_lower false unit unit stub_unreadable tt tt 3
    = (model', calls,
       Raise (ValueError (str "Failed to obtain valid CSV row after "
                          ++ str_of_int 3 ++ str " attempts: " ++ reason)))
    /\ length calls = Z.to_nat 3
    /\ last calls = Some (prompt, Return response)
    /\ answer_fails_with ascii_lower false
         (strip (dict_get response (str "answer") [])) reason.
Proof.
  apply (request_csv_row_exhausts ascii_lower false unit unit stub_unreadable tt tt 3).
  - lia.
  - intros model prompt. destruct model. apply stub_unreadable_always_fails.
Defined.

Lemma query_exception_propagates_witness :
  let run := request_csv_row ascii_lower false unit nat stub_drops_second tt 0%nat 3 in
  length (snd (fst run)) = 2%nat
  /\ snd run = Raise (OtherException (str "ConnectionError") (str "connection refused")).
Proof.
  eapply (query_exception_propagates ascii_lower false unit nat stub_drops_second
            tt 0%nat _ 3 _ _ 1%nat).
  - vm_compute. reflexivity.
  - vm_compute. reflexivity.
Defined.

Lemma request_csv_row_without_attempts_witness :
  request_csv_row ascii_lower false unit unit stub_unreadable tt tt 0
  = (tt, [],
     Raise (ValueError (str "Failed to obtain valid CSV row after 0 attempts: None"))).
Proof.
  apply (request_csv_row_without_attempts ascii_lower false unit unit
           stub_unreadable tt tt 0).
  lia.
Defined.

Lemma request_csv_row_negative_attempts :
  request_csv_row ascii_lower false unit unit stub_unreadable tt tt (-1)
  = (tt, [],
     Raise (ValueError (str "Failed to obtain valid CSV row after -1 attempts: None")))
  /\ str "Failed to obtain valid CSV row after -1 attempts: None"
     <> str "Failed to obtain valid CSV row after 0 attempts: None".
Proof. split; [vm_compute; reflexivity | discriminate]. Qed.

Lemma ascii_lower_on_ascii : lower_on_ascii ascii_lower.
Proof. intros s _. reflexivity. Defined.

Lemma validate_csv_row_placeholder_witness :
  validate_csv_row ascii_lower
    {[ str "Customer Name" := str "Customer Name: Jane Doe";
       str "Customer Address" := str "5 Oak Ave" ]}
  = Some (str "Customer Name still contains placeholder text")
  /\ ~ offends ascii_lower
       {[ str "Customer Name" := str "Jane Doe";
          str "Customer Address" := str "5 Oak Ave" ]}
       (str "Customer Name").
Proof.
  destruct (validate_csv_row_placeholder ascii_lower ascii_lower_on_ascii)
    as (_ & _ & _ & Hbad & Hgood).
  split; [apply Hbad | apply Hgood]; apply lookup_insert_eq.
Defined.

Lemma parse_csv_row_returns_extracted_row_witness :
  dom ({[ str "Customer Name" := str "John Smith";
          str "Customer Address" := str "123 Main St, Apt 4" ]} : Row)
  = list_to_set CSV_HEADERS
  /\ (forall header value,
         ({[ str "Customer Name" := str "John Smith";
             str "Customer Address" := str "123 Main St, Apt 4" ]} : Row)
           !! header = Some value ->
         strip value = value).
Proof.
  apply (parse_csv_row_returns_extracted_row ascii_lower false
           (str "John Smith" ++ [LF] ++ str "123 Main St, Apt 4") _ None).
  vm_compute. reflexivity.
Defined.

Lemma normalize_raw_text_idempotent_on_tabs_witness :
  normalize_raw_text
    (normalize_raw_text (str "John Smith" ++ [TAB] ++ str "123 Main St"))
  = normalize_raw_text (str "John Smith" ++ [TAB] ++ str "123 Main St").
Proof.
  apply normalize_raw_text_idempotent_on_tabs. left. vm_compute. reflexivity.
Defined.

Lemma normalize_raw_text_not_idempotent :
  char_in TAB (str "Jane Doe ," ++ [TAB]) = true
  /\ normalize_raw_text (str "Jane Doe ," ++ [TAB]) = str "Jane Doe "
  /\ normalize_raw_text (normalize_raw_text (str "Jane Doe ," ++ [TAB]))
     = str "Jane Doe"
  /\ normalize_raw_text (normalize_raw_text (str "Jane Doe ," ++ [TAB]))
     <> normalize_raw_text (str "Jane Doe ," ++ [TAB]).
Proof. repeat split; try (vm_compute; reflexivity). vm_compute. discriminate. Qed.

Lemma header_echo_then_data_row_witness :
  parse_csv_row ascii_lower false
    (str "Customer Name, Customer Address" ++ [LF] ++ str "Jane Doe, 5 Oak Ave")
  = Return (Some {[ str "Customer Name" := str "Jane Doe";
                    str "Customer Address" := str "5 Oak Ave" ]}, None).
Proof.
  apply (header_echo_then_data_row ascii_lower false COMMA LF
           (str "Customer Name") (str " Customer Address")
           (str "Jane Doe") (str " 5 Oak Ave"));
    try reflexivity.
  right. reflexivity.
Defined.

(** C3. The header echo is not always dropped.  [normalize_raw_text]
    merges the lines of an answer into one row before the reader runs, so
    the header test of the candidate loop, which drops a row made of the
    field names, never meets the echo of an answer of several lines as a
    row of its own.  With a tab-separated echo over the comma-separated
    row "Jane Doe, 5 Oak Ave" the tab is the delimiter, and
    [parse_csv_row] returns the second field name as the customer's name
    and the whole data row as the address; [validate_csv_row] accepts
    that row.  The echo alone is dropped by the header test, and the data
    row alone parses to itself. *)
Theorem header_echo_leaks (csv_rejects_nul : bool) :
  let echo := str "Customer Name" ++ [TAB] ++ str "Customer Address" in
  let data := str "Jane Doe, 5 Oak Ave" in
  let leaked : Row := {[ str "Customer Name" := str "Customer Address";
                         str "Customer Address" := str "Jane Doe, 5 Oak Ave" ]} in
  parse_csv_row ascii_lower csv_rejects_nul (echo ++ [LF] ++ data)
  = Return (Some leaked, None)
  /\ validate_csv_row ascii_lower leaked = None
  /\ parse_csv_row ascii_lower csv_rejects_nul echo
     = Return (None, Some (str "no row with expected column count"))
  /\ parse_csv_row ascii_lower csv_rejects_nul data
     = Return (Some {[ str "Customer Name" := str "Jane Doe";
                       str "Customer Address" := str "5 Oak Ave" ]}, None).
Proof. destruct csv_rejects_nul; repeat split; vm_compute; reflexivity. Qed.

Lemma jane_doe_is_ExtractedRow (address : Str) :
  strip address = address ->
  is_ExtractedRow {[ str "Customer Name" := str "Jane Doe";
                     str "Customer Address" := address ]}.
Proof.
  intros Haddr. split.
  - rewrite dom_insert_L, dom_singleton_L. unfold CSV_HEADERS. set_solver.
  - intros header value. rewrite lookup_insert. case_decide.
    + intros [= <-]. reflexivity.
    + rewrite lookup_singleton. case_decide; [|discriminate].
      intros [= <-]. exact Haddr.
Qed.

Lemma tab_joined_line_round_trip_witness :
  parse_csv_row ascii_lower false
    (tab_joined_line {[ str "Customer Name" := str "Jane Doe";
                        str "Customer Address" := str "5 Oak Ave, Apt 4" ]})
  = Return (Some {[ str "Customer Name" := str "Jane Doe";
                    str "Customer Address" := str "5 Oak Ave, Apt 4" ]}, None).
Proof.
  apply tab_joined_line_round_trip.
  - apply jane_doe_is_ExtractedRow. reflexivity.
  - repeat constructor.
  - vm_compute. discriminate.
Defined.

Lemma tab_joined_line_loses_empty_value :
  is_ExtractedRow {[ str "Customer Name" := str "Jane Doe";
                     str "Customer Address" := [] ]}
  /\ tab_joined_line {[ str "Customer Name" := str "Jane Doe";
                        str "Customer Address" := [] ]}
     = str "Jane Doe" ++ [TAB]
  /\ parse_csv_row ascii_lower false
       (tab_joined_line {[ str "Customer Name" := str "Jane Doe";
                           str "Customer Address" := [] ]})
     = Return (None, Some (str "no row with expected column count")).
Proof.
  split; [apply jane_doe_is_ExtractedRow; reflexivity|].
  split; vm_compute; reflexivity.
Qed.

(** ** The parser, the validator and the retry loop *)

Lemma parse_csv_row_blank_witness :
  parse_csv_row ascii_lower false (str "  " ++ [LF])
  = Return (None, Some (str "empty response")).
Proof. apply parse_csv_row_blank. reflexivity. Defined.

Lemma validate_csv_row_blank_values_witness :
  validate_csv_row ascii_lower ({[ str "Customer Name" := str "   " ]} : Row) = None.
Proof.
  apply validate_csv_row_blank_values.
  intros header [<- | [<- | []]]; vm_compute; reflexivity.
Defined.

Lemma request_csv_row_returns_valid_row_witness :
  let row : Row := {[ str "Customer Name" := str "Jane Doe";
                      str "Customer Address" := str "5 Oak Ave" ]} in
  let raw_csv := str "Jane Doe" ++ [TAB] ++ str "5 Oak Ave" in
  parse_csv_row ascii_lower false raw_csv = Return (Some row, None)
  /\ validate_csv_row ascii_lower row = None
  /\ exists prompt response,
       last [(CSV_PROMPT, Return answer_jane_doe)] = Some (prompt, Return response)
       /\ raw_csv = strip (dict_get response (str "answer") []).
Proof.
  apply (request_csv_row_returns_valid_row ascii_lower false unit unit stub_reads
           tt tt tt 3).
  vm_compute. reflexivity.
Defined.

Lemma request_csv_row_prompts_witness :
  let calls : list Call :=
    [(CSV_PROMPT, Return unreadable);
     (retry_prompt (Some (str "no row with expected column count")),
      Return answer_jane_doe)] in
  (forall prompt result,
      calls !! 0%nat = Some (prompt, result) -> prompt = CSV_PROMPT)
  /\ (forall i prompt1 result1 prompt2 result2,
         calls !! i = Some (prompt1, result1) ->
         calls !! S i = Some (prompt2, result2) ->
         exists response reason,
           result1 = Return response
           /\ answer_fails_with ascii_lower false
                (strip (dict_get response (str "answer") [])) reason
           /\ prompt2 = retry_prompt (Some reason)).
Proof.
  apply (request_csv_row_prompts ascii_lower false unit nat stub_second_try
           tt 0%nat 2%nat 3
           _ (Return ({[ str "Customer Name" := str "Jane Doe";
                         str "Customer Address" := str "5 Oak Ave" ]},
                      str "Jane Doe" ++ [TAB] ++ str "5 Oak Ave"))).
  vm_compute. reflexivity.
Defined.

Lemma parse_csv_row_name_over_address_witness :
  parse_csv_row ascii_lower false
    (str "John Smith" ++ [LF] ++ str "123 Main St, Apt 4")
  = Return (Some {[ str "Customer Name" := str "John Smith";
                    str "Customer Address" := str "123 Main St, Apt 4" ]}, None).
Proof.
  apply (parse_csv_row_name_over_address ascii_lower false LF
           (str "John Smith") (str "123 Main St, Apt 4"));
    try reflexivity.
  vm_compute. discriminate.
Defined.

(** ** One screenshot *)

Lemma process_screenshot_gives_up_witness :
  exists model' calls prompt response reason,
    process_screenshot ascii_lower false unit unit stub_unreadable (fun _ => true) tt tt
    = (model', calls,
       Return (mkResults None None
                 (Some (str "Failed to obtain valid CSV row after 3 attempts: "
                        ++ reason))))
    /\ length calls = 3%nat
    /\ last calls = Some (prompt, Return response)
    /\ answer_fails_with ascii_lower false
         (strip (dict_get response (str "answer") [])) reason.
Proof.
  apply (process_screenshot_gives_up ascii_lower false unit unit stub_unreadable
           (fun _ => true) tt tt).
  intros model prompt. destruct model. apply stub_unreadable_always_fails.
Defined.

Lemma process_screenshot_client_exception_witness :
  let run := process_screenshot ascii_lower false unit nat stub_drops_second
               (fun _ => true) tt 0%nat in
  length (snd (fst run)) = 2%nat
  /\ snd run = Return (mkResults None None (Some (str "connection refused"))).
Proof.
  apply (process_screenshot_client_exception ascii_lower false unit nat
           stub_drops_second (fun _ => true) tt 0%nat 2%nat _ _ 1%nat
           (retry_prompt (Some (str "no row with expected column count")))
           (OtherException (str "ConnectionError") (str "connection refused"))).
  - vm_compute. reflexivity.
  - vm_compute. reflexivity.
Defined.

(** ** Decoding the screenshot *)

Lemma base64_to_image_data_url_witness :
  base64_to_image unit any_bytes any_image (str "data:image/png;base64,aGVsbG8=")
  = base64_to_image unit any_bytes any_image (str "aGVsbG8=").
Proof.
  apply (base64_to_image_data_url unit any_bytes any_image
           (str "/png;base64") (str "aGVsbG8=") []);
    try reflexivity.
  left. reflexivity.
Defined.

Lemma base64_to_image_prefix_without_comma_witness :
  base64_to_image unit any_bytes any_image (str "data:image/png;base64") = None.
Proof. apply base64_to_image_prefix_without_comma; reflexivity. Defined.

Lemma base64_to_image_ignores_spaces_witness :
  base64_to_image unit any_bytes any_image (str "aGVs" ++ LF :: str "bG8=")
  = base64_to_image unit any_bytes any_image (str "aGVs" ++ str "bG8=").
Proof.
  apply base64_to_image_ignores_spaces; try reflexivity. right. reflexivity.
Defined.

(** ** One pass over the entries *)

Lemma process_once_saves_before_deleting_witness :
  let run := process_once ascii_lower false unit unit stub_reads (fun _ => true)
               any_bytes any_image nat str_of_nat nat nat ticking
               MemoryStore memory_update_one memory_delete_one
               memory_count_documents memory_find_sorted memory_find_one
               tt (one_entry, []) 0%nat in
  exists j doc now,
    1%nat = S j
    /\ snd (fst run) !! j = Some (Update_one (str_of_nat 7) doc now (Return tt)).
Proof.
  apply (process_once_saves_before_deleting ascii_lower false unit unit stub_reads
           (fun _ => true) any_bytes any_image nat str_of_nat nat nat ticking
           MemoryStore memory_update_one memory_delete_one
           memory_count_documents memory_find_sorted memory_find_one
           tt (one_entry, []) 0%nat 1%nat 7%nat (Return 1%nat)).
  vm_compute. reflexivity.
Defined.

Lemma process_once_exports_valid_rows_witness :
  let doc := mkExportDoc (str "7") (str "user1") (str "Jane Doe") (str "5 Oak Ave")
               (str "Jane Doe" ++ [TAB] ++ str "5 Oak Ave") 0%nat 0%nat in
  exists entry row,
    In entry (fetched_entries nat MemoryStore memory_count_documents
                memory_find_sorted memory_find_one (one_entry, []))
    /\ str "7" = str_of_nat (entry__id entry)
    /\ entryId doc = str "7"
    /\ userId doc = default (str "unknown") (entry_userId entry)
    /\ parse_csv_row ascii_lower false (rawResponse doc) = Return (Some row, None)
    /\ validate_csv_row ascii_lower row = None
    /\ customerName doc = dict_get row (str "Customer Name") []
    /\ customerAddress doc = dict_get row (str "Customer Address") []
    /\ processedAt doc = 0%nat /\ updatedAt doc = 0%nat.
Proof.
  apply (process_once_exports_valid_rows ascii_lower false unit unit stub_reads
           (fun _ => true) any_bytes any_image nat str_of_nat nat nat ticking
           MemoryStore memory_update_one memory_delete_one
           memory_count_documents memory_find_sorted memory_find_one
           tt (one_entry, []) 0%nat 0%nat (str "7") _ 0%nat (Return tt)).
  vm_compute. reflexivity.
Defined.

Lemma process_once_skips_unusable_witness :
  process_once ascii_lower false unit unit stub_reads (fun _ => true)
    any_bytes any_image nat str_of_nat nat nat ticking
    MemoryStore memory_update_one memory_delete_one
    memory_count_documents memory_find_sorted memory_find_one
    tt (three_unusable_entries, []) 0%nat
  = (tt, (three_unusable_entries, []), 0%nat, [], [], Return tt).
Proof.
  apply (process_once_skips_unusable ascii_lower false unit unit stub_reads
           (fun _ => true) any_bytes any_image nat str_of_nat nat nat ticking
           MemoryStore memory_update_one memory_delete_one
           memory_count_documents memory_find_sorted memory_find_one
           tt (three_unusable_entries, []) (three_unusable_entries, []) 0%nat
           (tl three_unusable_entries)).
  - reflexivity.
  - constructor; [left; reflexivity|].
    constructor; [right; reflexivity | constructor].
Defined.

Lemma process_once_aborts_only_on_witness :
  let run := process_once ascii_lower false unit unit stub_reads (fun _ => true)
               any_bytes any_image nat str_of_nat nat nat ticking
               MemoryStore lost_update_one memory_delete_one
               memory_count_documents memory_find_sorted memory_find_one
               tt (one_entry, []) 0%nat in
  (snd (fetch_entries nat MemoryStore memory_count_documents memory_find_sorted
          memory_find_one (one_entry, []))
   = Raise unreachable
   /\ snd (fst (fst run)) = [] /\ snd (fst run) = [])
  \/ (exists id doc now,
         last (snd (fst run)) = Some (Update_one id doc now (Raise unreachable)))
  \/ (exists id, last (snd (fst run)) = Some (Delete_one id (Raise unreachable)))
  \/ (exists prompt,
         is_Exception (fun _ => true) unreachable = false
         /\ last (snd (fst (fst run))) = Some (prompt, Raise unreachable)).
Proof.
  apply (process_once_aborts_only_on ascii_lower false unit unit stub_reads
           (fun _ => true) any_bytes any_image nat str_of_nat nat nat ticking
           MemoryStore lost_update_one memory_delete_one
           memory_count_documents memory_find_sorted memory_find_one
           tt (one_entry, []) 0%nat unreachable).
  vm_compute. reflexivity.
Defined.

(** ** Finding the database and the collections *)

Lemma prepare_collections_names_witness :
  In (str "breather") (list_database_names server_with_ocrtext)
  /\ In (str "ocrtext") possible_collections
  /\ str "ocrexports" = str "ocrexports".
Proof.
  apply (prepare_collections_names (str "breather") server_with_ocrtext).
  vm_compute. reflexivity.
Defined.



Lemma prepare_collections_search_witness :
  exists before after,
    list_database_names server_with_ocrtext = before ++ str "breather" :: after
    /\ ~ In (str "breather") system_databases
    /\ chosen_in (list_collection_names server_with_ocrtext (str "breather"))
         (str "ocrtext")
    /\ Forall (passed_over server_with_ocrtext) before.
Proof.
  apply (prepare_collections_search (str "orders") server_with_ocrtext
           (str "breather") (str "ocrtext") (str "ocrexports")).
  - intros [H | [H | [H | []]]]; discriminate H.
  - vm_compute. reflexivity.
Defined.

(** ** The name of the database *)

Lemma MONGODB_DB_of_srv_uri_witness :
  MONGODB_DB_of no_urlparse None
    (str "mongodb+srv://" ++ str "user:pw@cluster0.example.net" ++ [SLASH]
     ++ str "orders" ++ str "?retryWrites=true&w=majority")
  = str "orders".
Proof.
  apply MONGODB_DB_of_srv_uri; try reflexivity.
  - discriminate.
  - right. left. reflexivity.
Defined.

Lemma MONGODB_DB_of_srv_uri_default_witness :
  MONGODB_DB_of no_urlparse (Some [])
    (str "mongodb+srv://" ++ str "cluster0.example.net")
  = str "breather"
  /\ MONGODB_DB_of no_urlparse (Some [])
       (str "mongodb+srv://" ++ str "cluster0.example.net" ++ [SLASH])
     = str "breather"
  /\ MONGODB_DB_of no_urlparse (Some [])
       (str "mongodb+srv://" ++ str "cluster0.example.net" ++ [SLASH; QUESTION]
        ++ str "retryWrites=true")
     = str "breather".
Proof. apply MONGODB_DB_of_srv_uri_default; reflexivity. Defined.
